(** * advanced-shell-history: the persistence layer (src/database.cpp)

    A shallow embedding of [Database], [DBObject], [ResultSet], [ash_sleep],
    [Config::get_int] and the [Logger] of advanced-shell-history, and the
    properties of them that the specification states.

    The SQLite engine, the C library and the operating system are outside the
    program.  Their answers are inputs of the model: read-only answers sit in
    an [Env], answers that are consumed call by call sit in scripts of the
    [World], and every call the program makes to the outside is recorded in
    the [World]'s trace. *)

From Stdlib Require Import ZArith List String Ascii Bool Lia.
Import ListNotations.
Open Scope Z_scope.

(** ** C integers *)

Module C.

Definition INT_MAX : Z := 2147483647.
Definition LONG_MAX : Z := 9223372036854775807.
Definition LONG_MIN : Z := - 9223372036854775808.

(** Conversion to [int] (32 bits, two's complement). *)
Definition to_int (z : Z) : Z := (z + 2 ^ 31) mod 2 ^ 32 - 2 ^ 31.

(** Conversion to [unsigned int]. *)
Definition to_uint (z : Z) : Z := z mod 2 ^ 32.

(** Conversion to [size_t] (LP64). *)
Definition to_size_t (z : Z) : Z := z mod 2 ^ 64.

Definition isspace (c : ascii) : bool :=
  let n := Z.of_nat (nat_of_ascii c) in
  (n =? 32) || ((9 <=? n) && (n <=? 13)).

(** [isprint] in the "C" locale (the program never calls setlocale).  A
    [char] above 127 is not printable. *)
Definition isprint (c : ascii) : bool :=
  let n := Z.of_nat (nat_of_ascii c) in
  (32 <=? n) && (n <=? 126).

Definition digit (c : ascii) : option Z :=
  let n := Z.of_nat (nat_of_ascii c) in
  if (48 <=? n) && (n <=? 57) then Some (n - 48) else None.

Fixpoint skip_spaces (s : string) : string :=
  match s with
  | String c r => if isspace c then skip_spaces r else s
  | EmptyString => s
  end.

Fixpoint digits (s : string) (acc : Z) : Z :=
  match s with
  | String c r =>
      match digit c with
      | Some d => digits r (10 * acc + d)
      | None => acc
      end
  | EmptyString => acc
  end.

Definition clamp_long (z : Z) : Z := Z.max LONG_MIN (Z.min LONG_MAX z).

(** [strtol(s, NULL, 10)]: blanks, an optional sign, then digits; a value
    out of range is clamped. *)
Definition strtol (s : string) : Z :=
  match skip_spaces s with
  | String "-"%char r => clamp_long (- digits r 0)
  | String "+"%char r => clamp_long (digits r 0)
  | t => clamp_long (digits t 0)
  end.

(** [atoi(s)] as the C library has it: [(int) strtol(s, NULL, 10)]. *)
Definition atoi (s : string) : Z := to_int (strtol s).

End C.

(** ** SQLite result codes (sqlite3.h) *)

Module Sqlite.

Definition SQLITE_OK : Z := 0.
Definition SQLITE_BUSY : Z := 5.
Definition SQLITE_LOCKED : Z := 6.
Definition SQLITE_CONSTRAINT : Z := 19.
Definition SQLITE_ROW : Z := 100.
Definition SQLITE_DONE : Z := 101.

(** A prepared statement, as far as the program looks at it: the names of
    its result columns. *)
Record sqlite3_stmt : Type := mk_stmt { stmt_column_names : list string }.

Definition sqlite3_column_count (ps : sqlite3_stmt) : nat :=
  List.length (stmt_column_names ps).

(** [sqlite3_column_name(ps, c)]; a null pointer, [None], for a column out
    of range. *)
Definition sqlite3_column_name (ps : sqlite3_stmt) (c : nat) : option string :=
  nth_error (stmt_column_names ps) c.

(** What one call of [sqlite3_prepare_v2] leaves behind: the statement (or
    a null pointer) and the connection's error code. *)
Record PrepareAnswer : Type := mk_prepare
  { prepared : option sqlite3_stmt; errcode : Z }.

(** What one call of [sqlite3_step] answers: the result code and, for
    [SQLITE_ROW], the text of each column (a null pointer for SQL NULL). *)
Record StepAnswer : Type := mk_step
  { step_code : Z; step_cells : list (option string) }.

Definition sqlite3_column_text (r : StepAnswer) (c : nat) : option string :=
  nth c (step_cells r) None.

End Sqlite.
Export Sqlite.

(** ** DBObject::quote *)

Definition newline : ascii := ascii_of_nat 10.
Definition tab : ascii := ascii_of_nat 9.
Definition apostrophe : ascii := ascii_of_nat 39.

Definition push_back (out : string) (c : ascii) : string :=
  (out ++ String c EmptyString)%string.

(** One turn of the [for] loop of [quote]: the [switch] on [c], with the
    fall through from the single-quote case into [default]. *)
Definition quote_switch (out : string) (c : ascii) : string :=
  if Ascii.eqb c newline || Ascii.eqb c tab then push_back out c
  else
    let out := if Ascii.eqb c apostrophe then push_back out c else out in
    if C.isprint c then push_back out c else out.

Fixpoint quote_for (i : string) (out : string) : string :=
  match i with
  | EmptyString => out
  | String c i' => quote_for i' (quote_switch out c)
  end.

(** [DBObject::quote] on a [string]. *)
Definition quote (input : string) : string :=
  match input with
  | EmptyString => "null"%string
  | _ => push_back (quote_for input "'"%string) apostrophe
  end.

(** [DBObject::quote] on a C string: a null pointer is [None]. *)
Definition quote_cstr (value : option string) : string :=
  match value with
  | Some v => quote v
  | None => "null"%string
  end.

(** The quoting rule in the specification's words: what each character of
    a non-empty input contributes to the literal. *)
Definition quoted_char (c : ascii) : string :=
  if Ascii.eqb c tab || Ascii.eqb c newline then String c EmptyString
  else if Ascii.eqb c apostrophe then String c (String c EmptyString)
  else if C.isprint c then String c EmptyString
  else EmptyString.

Fixpoint quoted_body (s : string) : string :=
  match s with
  | EmptyString => EmptyString
  | String c r => (quoted_char c ++ quoted_body r)%string
  end.

Definition quote_spec (raw : string) : string :=
  if String.eqb raw EmptyString then "null"%string
  else ("'" ++ quoted_body raw ++ "'")%string.

(** ** The world outside the program *)

Inductive Severity : Type := DEBUG | INFO | WARNING | ERROR | FATAL | UNKNOWN.

(** What is streamed into a log message or into [cerr]: literal text,
    numbers, and the engine's own diagnostic ([sqlite3_errmsg] and the
    error string of [sqlite3_exec]). *)
Inductive Item : Type :=
| Txt (s : string)
| Num (z : Z)
| EngineMsg.

Inductive Event : Type :=
| ELog (level : Severity) (msg : list Item)
| ECerr (msg : list Item)
| EFopen (path : string)
| EOpen (path : string)
| EPrepare (sql : string)
| EStep
| EFinalize
| EExec (sql : string)
| ESrand (seed : Z)
| ESleep (ms : Z)
| ELastRowid.

(** Answers that do not depend on what the program did before. *)
Record Env : Type := mk_env
  { getenv : string -> option string;
    (* Logger: localtime gave a result; strftime wrote a non-empty stamp *)
    localtime_ok : bool;
    strftime_ok : bool;
    (* ash_sleep: time(0) once n events are on the trace, getpid(), and the
       first rand() after srand(seed), a value from 0 to RAND_MAX *)
    time_at : nat -> Z;
    getpid : Z;
    rand_after : Z -> N;
    (* Database::Database: stat found the file, fopen and sqlite3_open
       succeeded; Database::init_db: the return code of sqlite3_exec *)
    stat_found : bool;
    fopen_ok : bool;
    sqlite3_open_ok : bool;
    sqlite3_exec_rc : Z }.

(** The engine's answers still to come, in call order, and the trace of
    what the program did so far, newest event first. *)
Record World : Type := mk_world
  { prepares : list PrepareAnswer;
    steps : list StepAnswer;
    rowids : list Z;
    trace : list Event }.

Definition emit (ev : Event) (w : World) : World :=
  mk_world (prepares w) (steps w) (rowids w) (ev :: trace w).

(** How a call ends when it does not return. *)
Inductive Halt : Type :=
| Exited      (* exit(1), from the destructor of a FATAL Logger *)
| Starved     (* the script of engine answers is used up *)
| Undefined.  (* undefined behaviour of C++ *)

Inductive Outcome (A : Type) : Type :=
| Ret (a : A)
| Stop (h : Halt).
Arguments Ret {A} a.
Arguments Stop {A} h.

Definition M (A : Type) : Type := World -> Outcome A * World.

Definition ret {A : Type} (a : A) : M A := fun w => (Ret a, w).

Definition stop {A : Type} (h : Halt) : M A := fun w => (Stop h, w).

Definition bind {A B : Type} (m : M A) (k : A -> M B) : M B :=
  fun w =>
    match m w with
    | (Ret a, w') => k a w'
    | (Stop h, w') => (Stop h, w')
    end.

Definition does (ev : Event) : M unit := fun w => (Ret tt, emit ev w).

Declare Scope cmd_scope.
Delimit Scope cmd_scope with cmd.
Notation "x <- m ;; k" := (bind m (fun x => k))
  (at level 61, m at next level, right associativity) : cmd_scope.
Notation "m ;; k" := (bind m (fun _ => k))
  (at level 61, right associativity) : cmd_scope.
Open Scope cmd_scope.

Definition when (b : bool) (m : M unit) : M unit := if b then m else ret tt.

(** ** Config (src/config.cpp) *)

Definition get_ash_env (e : Env) (key : string) : option string :=
  if String.prefix "ASH_CFG_" key then getenv e key
  else getenv e ("ASH_CFG_" ++ key)%string.

Definition get_int (e : Env) (key : string) (dv : Z) : Z :=
  match get_ash_env e key with
  | Some env => C.atoi env
  | None => dv
  end.

Definition get_string (e : Env) (key : string) (dv : string) : string :=
  match get_ash_env e key with
  | Some env => env
  | None => dv
  end.

(** The two lines that open both [Database::prepare_stmt] and
    [Database::exec]:
    [max_retries = get_int("DB_MAX_RETRIES", -1); if (max_retries <= 0) max_retries = 5;] *)
Definition db_max_retries (e : Env) : Z :=
  let max_retries := get_int e "DB_MAX_RETRIES" (-1) in
  if max_retries <=? 0 then 5 else max_retries.

(** ** Logger (src/logger.cpp)

    [LOG(level) << msg] builds a temporary Logger, streams the message and
    destroys the Logger; the destructor calls exit(1) when the level is
    FATAL.  The constructor itself logs at FATAL, and so ends the process
    before the message is streamed, when it cannot stamp the line. *)
Definition LOG_FATAL {A : Type} (msg : list Item) : M A :=
  does (ELog FATAL msg) ;; stop Exited.

Definition LOG (e : Env) (level : Severity) (msg : list Item) : M unit :=
  match level with
  | FATAL => LOG_FATAL msg
  | _ =>
      if negb (localtime_ok e) then
        LOG_FATAL [Txt "Failed to get localtime on this machine."]
      else if negb (strftime_ok e) then
        LOG_FATAL [Txt "ASH_CFG_LOG_DATE_FMT is invalid: '";
                   Txt (get_string e "LOG_DATE_FMT" "%Y-%m-%d %H:%M:%S %Z: ");
                   Txt "'"]
      else does (ELog level msg)
  end.

(** ** ash_sleep *)

Definition fail_ms (e : Env) : Z :=
  let fail_ms := get_int e "DB_FAIL_TIMEOUT" (-1) in
  if fail_ms <? 0 then 0 else fail_ms.

Definition random_ms (e : Env) : Z :=
  let random_ms := get_int e "DB_FAIL_RANDOM_TIMEOUT" (-1) in
  if random_ms <? 0 then 0 else random_ms.

(** [srand(time(0) ^ getpid())]: the seed is the exclusive or, converted to
    [unsigned int]. *)
Definition sleep_seed (e : Env) (w : World) : Z :=
  C.to_uint (Z.lxor (time_at e (List.length (trace w))) (getpid e)).

(** The number of milliseconds [ash_sleep] decides to sleep, lines 182-196:
    [ms = fail_ms; if (random_ms > 0) { srand(..); ms += rand() % random_ms; }] *)
Definition sleep_ms (e : Env) : M Z :=
  if 0 <? random_ms e then
    fun w =>
      let seed := sleep_seed e w in
      (Ret (fail_ms e + Z.of_N (rand_after e seed) mod random_ms e),
       emit (ESrand seed) w)
  else ret (fail_ms e).

(** [retries] as [ash_sleep] reads it: a negative setting counts as 5,
    zero stays zero. *)
Definition sleep_retries (e : Env) : Z :=
  let retries := get_int e "DB_MAX_RETRIES" (-1) in
  if retries <? 0 then 5 else retries.

(** [ash_sleep].  After [if (ms == 0) return;] comes
    [unsigned int sleep_attempts = retries * 2;], a product of two [int]
    that is undefined when it does not fit an [int].  The rest of lines
    200-276, the clock_nanosleep loop on the monotonic clock and the
    measurements around it, is the one event [ESleep ms]: how long the
    sleep takes, and what it logs, is not part of this model of
    [prepare_stmt] and [exec].  ([sleep_phase] below is that part on its
    own.) *)
Definition ash_sleep (e : Env) : M unit :=
  ms <- sleep_ms e ;;
  LOG e INFO [Txt "Sleeping "; Num ms; Txt " milliseconds."] ;;
  if ms =? 0 then ret tt
  else if C.INT_MAX <? sleep_retries e * 2 then stop Undefined
  else does (ESleep ms).

(** ** Database::prepare_stmt *)

Definition sqlite3_prepare_v2 (query : string) : M PrepareAnswer :=
  fun w =>
    match prepares w with
    | [] => (Stop Starved, w)
    | a :: rest =>
        (Ret a, emit (EPrepare query) (mk_world rest (steps w) (rowids w) (trace w)))
    end.

Definition sqlite3_finalize : M unit := does EFinalize.

Definition contention (code : Z) : bool :=
  (code =? SQLITE_LOCKED) || (code =? SQLITE_BUSY).

(** What follows [sqlite3_prepare_v2] in [prepare_stmt]:
    [if (ps) return ps;] and the [switch] on the error code.  [again] is
    [goto try_prepare], entered with the decremented [tries]. *)
Definition prepare_switch (e : Env) (max_retries : Z)
    (again : Z -> M sqlite3_stmt) (tries : Z) (a : PrepareAnswer)
  : M sqlite3_stmt :=
  match prepared a with
  | Some ps => ret ps
  | None =>
      let error_code := errcode a in
      if contention error_code then
        LOG e DEBUG [Txt "Database is busy while preparing a statement."] ;;
        sqlite3_finalize ;;
        let tries := tries - 1 in
        if 0 <? tries then
          LOG e DEBUG [Txt "Sleeping and trying to prepare statement again."] ;;
          ash_sleep e ;;
          again tries
        else
          LOG_FATAL [Txt "Failed to prepare statement after ";
                     Num max_retries; Txt " failed attempts."]
      else
        LOG_FATAL [Txt "Unexpected error code while preparing statement: ";
                   Num error_code]
  end.

(** The code from the label [try_prepare] on.  Every turn reads one answer
    of the engine, so [fuel], the number of answers left, bounds the turns. *)
Fixpoint try_prepare (fuel : nat) (e : Env) (query : string)
    (max_retries tries : Z) : M sqlite3_stmt :=
  match fuel with
  | O => stop Starved
  | S fuel' =>
      a <- sqlite3_prepare_v2 query ;;
      prepare_switch e max_retries (try_prepare fuel' e query max_retries) tries a
  end.

(** [tries = max_retries + 1] overflows [int] when DB_MAX_RETRIES is
    INT_MAX. *)
Definition first_tries (max_retries : Z) : M Z :=
  if max_retries =? C.INT_MAX then stop Undefined else ret (max_retries + 1).

Definition prepare_stmt (e : Env) (query : string) : M sqlite3_stmt :=
  let max_retries := db_max_retries e in
  tries <- first_tries max_retries ;;
  fun w => try_prepare (List.length (prepares w)) e query max_retries tries w.

(** ** ResultSet *)

Definition RowType : Type := list string.

Record ResultSet : Type := mk_ResultSet
  { headers : list string;
    data : list RowType;
    rows : nat;
    columns : nat }.

(** The constructor [ResultSet::ResultSet(h, d)]. *)
Definition ResultSet_new (h : list string) (d : list RowType) : ResultSet :=
  mk_ResultSet h d (List.length d) (List.length h).

(** ** Database::exec *)

Definition sqlite3_step : M StepAnswer :=
  fun w =>
    match steps w with
    | [] => (Stop Starved, w)
    | a :: rest =>
        (Ret a, emit EStep (mk_world (prepares w) rest (rowids w) (trace w)))
    end.

(** The local variables of [exec] that change while it runs. *)
Record Locals : Type := mk_locals
  { l_ps : sqlite3_stmt;
    l_tries : Z;
    l_fetched : Z;
    l_rows : Z;
    l_headers : list string;
    l_results : list RowType }.

(** [ss << sqlite3_column_name(ps, c); headers.push_back(ss.str());] for
    each column in [cs].  Streaming a null pointer is undefined: [None]. *)
Fixpoint push_names (ps : sqlite3_stmt) (cs : list nat) (headers : list string)
  : option (list string) :=
  match cs with
  | [] => Some headers
  | c :: cs' =>
      match sqlite3_column_name ps c with
      | Some name => push_names ps cs' (headers ++ [name])
      | None => None
      end
  end.

(** The header names, built when the first row arrives. *)
Definition build_headers (ps : sqlite3_stmt) (columns : nat)
  : option (list string) :=
  push_names ps (seq 0 columns) [].

(** One row: the text of each column, the empty string for a null pointer. *)
Definition build_row (a : StepAnswer) (columns : nat) : RowType :=
  map (fun c => match sqlite3_column_text a c with
                | Some text => text
                | None => EmptyString
                end) (seq 0 columns).

(** The [switch] on the result of [sqlite3_step], inside the [for] loop of
    [exec].  [again] is the rest of the loop: it is entered by [continue]
    after a row, and by [goto try_sql] after a contention; the other cases
    leave the loop for the label [finalize] with the local variables as
    they are. *)
Definition exec_switch (e : Env) (query : string) (max_retries : Z)
    (columns : nat) (again : Locals -> M Locals) (l : Locals) (a : StepAnswer)
  : M Locals :=
  let result := step_code a in
  if result =? SQLITE_ROW then
    match
      match l_headers l with
      | [] => build_headers (l_ps l) columns
      | _ => Some (l_headers l)
      end
    with
    | None => stop Undefined
    | Some headers =>
        let results := l_results l ++ [build_row a columns] in
        (* ++fetched on an int; ++rows on an unsigned int *)
        if l_fetched l =? C.INT_MAX then stop Undefined
        else
          again (mk_locals (l_ps l) (l_tries l) (l_fetched l + 1)
                   (C.to_uint (l_rows l + 1)) headers results)
    end
  else if result =? SQLITE_CONSTRAINT then
    LOG e DEBUG [Txt "constraint violation executing: '"; Txt query; Txt "'"] ;;
    ret l
  else if result =? SQLITE_DONE then ret l
  else if contention result then
    when (l_tries l <=? 0)
      (LOG_FATAL [Txt "Failed to unlock db: "; EngineMsg;
                  Txt "
Gave up after "; Num max_retries; Txt " failures.";
                  Txt "
Executing: '"; Txt query; Txt "'
"]) ;;
    ash_sleep e ;;
    sqlite3_finalize ;;
    ps <- prepare_stmt e query ;;
    let tries := l_tries l - 1 in
    LOG e WARNING [Txt "Database was locked, tries remaining: "; Num tries] ;;
    (* goto try_sql: fetched = 0, and the for statement sets rows = 0 *)
    again (mk_locals ps tries 0 0 (l_headers l) (l_results l))
  else
    sqlite3_finalize ;;
    does (ECerr [Txt "unknown sqlite3_step code: "; Num result;
                 Txt " executing '"; Txt query; Txt "'
Error:
"; EngineMsg; Txt "
"]) ;;
    LOG_FATAL [Txt "unknown sqlite3_step code: "; Num result;
               Txt " executing '"; Txt query; Txt "'
Error:
"; EngineMsg].

(** The [for] loop of [exec] together with the label [try_sql]; it returns
    the local variables as they are at the label [finalize].  Every turn
    reads one answer of [sqlite3_step], so [fuel], the number of answers
    left, bounds the turns. *)
Fixpoint exec_for (fuel : nat) (e : Env) (query : string) (limit : Z)
    (max_retries : Z) (columns : nat) (l : Locals) : M Locals :=
  if (l_fetched l <? limit) || (limit <=? 0) then
    match fuel with
    | O => stop Starved
    | S fuel' =>
        a <- sqlite3_step ;;
        exec_switch e query max_retries columns
          (exec_for fuel' e query limit max_retries columns) l a
    end
  else ret l.

(** [Database::exec(query, limit, reverse)]; a null pointer is [None]. *)
Definition exec (e : Env) (query : string) (limit : Z) (reverse : bool)
  : M (option ResultSet) :=
  let max_retries := db_max_retries e in
  tries <- first_tries max_retries ;;
  ps <- prepare_stmt e query ;;
  let columns := sqlite3_column_count ps in
  l <- (fun w => exec_for (List.length (steps w)) e query limit max_retries columns
                   (mk_locals ps tries 0 0 [] []) w) ;;
  sqlite3_finalize ;;
  let results :=
    if reverse && negb (l_rows l =? 0) then rev (l_results l) else l_results l in
  ret (if l_rows l =? 0 then None else Some (ResultSet_new (l_headers l) results)).

(** ** DBObject: the table registry and the rendering of an INSERT *)

(** The static members [DBObject::table_names] and
    [DBObject::create_tables]. *)
Record Registry : Type := mk_registry
  { table_names : list string;
    create_tables : list string }.

Definition register_table (name sql : string) (r : Registry) : Registry :=
  mk_registry (table_names r ++ [name]) (create_tables r ++ [sql]).

Definition get_create_tables (r : Registry) : string :=
  ("PRAGMA foreign_keys=OFF;" ++ "BEGIN TRANSACTION;"
   ++ String.concat "" (map (fun i => i ++ "; ") (create_tables r))
   ++ "COMMIT;")%string.

(** A persistable record: the table name of the concrete class and the
    map [values], listed in the order in which the map is iterated (by
    key). *)
Record DBObject : Type := mk_object
  { get_name : string;
    values : list (string * string) }.

Definition get_sql (o : DBObject) : string :=
  ("INSERT INTO " ++ get_name o ++ " ("
   ++ String.concat ", " (map fst (values o))
   ++ ") VALUES ("
   ++ String.concat ", " (map snd (values o))
   ++ "); ")%string.

(** ** Database::insert *)

Definition sqlite3_last_insert_rowid : M Z :=
  fun w =>
    match rowids w with
    | [] => (Stop Starved, w)
    | r :: rest =>
        (Ret r, emit ELastRowid (mk_world (prepares w) (steps w) rest (trace w)))
    end.

(** [Database::insert(object)]; a null pointer is [None].  [exec] is called
    with its default arguments, no limit and no reversal. *)
Definition insert (e : Env) (object : option DBObject) : M Z :=
  match object with
  | None => ret 0
  | Some o =>
      exec e (get_sql o) 0 false ;;
      sqlite3_last_insert_rowid
  end.

(** ** Database::init_db and the constructor *)

Definition init_db (e : Env) (r : Registry) : M unit :=
  let create_tables := get_create_tables r in
  does (EExec create_tables) ;;
  when (negb (sqlite3_exec_rc e =? 0))
    (does (ECerr [Txt "Failed to create tables:
"; Txt create_tables; Txt "Error:
"; EngineMsg; Txt "
"])).

(** The query that counts how many registered tables the store has. *)
Definition count_query (r : Registry) : string :=
  ("select count(*) as table_count " ++ "from sqlite_master "
   ++ "where type = 'table' and tbl_name in ("
   ++ String.concat ", " (map quote (table_names r))
   ++ ");")%string.

(** [rs && rs -> rows == 1 ? atoi(rs -> data[0][0].c_str()) : 0], stored
    in a [size_t].  Reading [data[0][0]] of a row without cells is
    undefined. *)
Definition defined_tables_of (rs : option ResultSet) : M Z :=
  match rs with
  | Some r =>
      if Nat.eqb (rows r) 1 then
        match data r with
        | (cell :: _) :: _ => ret (C.to_size_t (C.atoi cell))
        | _ => stop Undefined
        end
      else ret 0
  | None => ret 0
  end.

(** [Database::Database(filename)], with the registry as it is when the
    constructor runs. *)
Definition Database_new (e : Env) (r : Registry) (db_filename : string) : M unit :=
  when (negb (stat_found e))
    (does (EFopen db_filename) ;;
     when (negb (fopen_ok e))
       (LOG_FATAL [Txt "failed to create new DB file: "; Txt db_filename; Txt "
"])) ;;
  does (EOpen db_filename) ;;
  when (negb (sqlite3_open_ok e))
    (LOG_FATAL [Txt "Failed to open "; Txt db_filename; Txt "
Error: "; EngineMsg; Txt "
"]) ;;
  let registered := Z.of_nat (List.length (table_names r)) in
  let query := count_query r in
  rs <- exec e query 0 false ;;
  defined_tables <- defined_tables_of rs ;;
  if defined_tables =? registered then ret tt
  else
    init_db e r ;;
    when (registered <? defined_tables)
      (LOG e WARNING [Txt "Expected "; Num registered;
                      Txt " tables to be defined, found "; Num defined_tables;
                      Txt " instead."]).

(** ** Vocabulary of the statements *)

(** The Logger can stamp its lines. *)
Definition logger_ok (e : Env) : bool := localtime_ok e && strftime_ok e.

Definition is_prepare (ev : Event) : bool :=
  match ev with EPrepare _ => true | _ => false end.

Definition is_backoff (ev : Event) : bool :=
  match ev with ELog INFO _ => true | _ => false end.

Definition is_debug (ev : Event) : bool :=
  match ev with ELog DEBUG _ => true | _ => false end.

(** How often the program asked the engine to compile a statement, and how
    often it entered [ash_sleep] (which logs once at INFO, and nothing else
    does). *)
Definition attempts (t : list Event) : nat := List.length (filter is_prepare t).
Definition backoffs (t : list Event) : nat := List.length (filter is_backoff t).

(** A trace without the DEBUG lines of the log. *)
Definition visible (t : list Event) : list Event :=
  filter (fun ev => negb (is_debug ev)) t.

(** A compilation that fails with busy or locked. *)
Definition contended (a : PrepareAnswer) : bool :=
  match prepared a with
  | Some _ => false
  | None => contention (errcode a)
  end.

Definition set_steps (s : list StepAnswer) (w : World) : World :=
  mk_world (prepares w) s (rowids w) (trace w).

Definition set_prepares (p : list PrepareAnswer) (w : World) : World :=
  mk_world p (steps w) (rowids w) (trace w).

(** A command that neither reads nor changes the script of step answers:
    it runs the same whatever that script is. *)
Definition steps_free {A : Type} (m : M A) : Prop :=
  forall s w, m (set_steps s w) = (fst (m w), set_steps s (snd (m w))).

(** Two runs that end alike: the same outcome, the same compile answers and
    row identifiers left, and the same trace apart from DEBUG lines. *)
Definition alike {A : Type} (r1 r2 : Outcome A * World) : Prop :=
  fst r1 = fst r2
  /\ prepares (snd r1) = prepares (snd r2)
  /\ rowids (snd r1) = rowids (snd r2)
  /\ visible (trace (snd r1)) = visible (trace (snd r2)).

(** What the loop of [exec] keeps true of its local variables: every row
    collected has [columns] cells; the headers are not built yet or there
    are [columns] of them; and when [rows] is not zero, a row was collected
    and the headers are built. *)
Definition shaped (columns : nat) (l : Locals) : Prop :=
  Forall (fun row : RowType => List.length row = columns) (l_results l)
  /\ (l_headers l = [] \/ List.length (l_headers l) = columns)
  /\ (l_rows l <> 0 -> l_results l <> [] /\ List.length (l_headers l) = columns).

(** The only SQL text an event hands to the engine is [query]. *)
Definition only_sql (query : string) (ev : Event) : Prop :=
  match ev with
  | EPrepare sql => sql = query
  | EExec _ => False
  | _ => True
  end.

(** A command only adds events to the trace, all of them in [P]. *)
Definition grows {A : Type} (P : Event -> Prop) (m : M A) : Prop :=
  forall w, exists more,
    trace (snd (m w)) = more ++ trace w /\ Forall P more.

(** The first [limit] elements when [limit] is positive, all of them
    otherwise. *)
Definition up_to {A : Type} (limit : Z) (l : list A) : list A :=
  if 0 <? limit then firstn (Z.to_nat limit) l else l.

(** The step answers of a statement that is interrupted: for each element
    of [runs], the rows it yields and then a contention answer. *)
Definition interrupted (runs : list (list StepAnswer * StepAnswer))
  : list StepAnswer :=
  flat_map (fun run => fst run ++ [snd run]) runs.

(** Row answers that the loop of [exec] reads one after the other and
    then looks at the next answer: there are fewer of them than a positive
    [limit], and no more than the [int] [fetched] can count. *)
Definition readable (limit : Z) (answers : list StepAnswer) : Prop :=
  Forall (fun a => step_code a = SQLITE_ROW) answers
  /\ Z.of_nat (List.length answers) <= C.INT_MAX
  /\ (limit <= 0 \/ Z.of_nat (List.length answers) < limit).

(** The compile answers of a statement that is compiled more than once:
    for each element of [compilations], compilations that fail and then
    one more. *)
Definition compiled_after (compilations : list (list PrepareAnswer * PrepareAnswer))
  : list PrepareAnswer :=
  flat_map (fun c => fst c ++ [snd c]) compilations.

(** How many compilations of [compilations] fail. *)
Definition failures (compilations : list (list PrepareAnswer * PrepareAnswer))
  : nat :=
  List.length (flat_map fst compilations).

(** Compilations that fail with busy or locked, no more than [max_retries]
    of them, and then one that gives the statement [ps]. *)
Definition gives (max_retries : Z) (ps : sqlite3_stmt)
    (c : list PrepareAnswer * PrepareAnswer) : Prop :=
  Forall (fun a => contended a = true) (fst c)
  /\ Z.of_nat (List.length (fst c)) <= max_retries
  /\ prepared (snd c) = Some ps.

(** A run of an interrupted statement: rows that are read, then a
    contention answer. *)
Definition interruption (limit : Z) (run : list StepAnswer * StepAnswer) : Prop :=
  readable limit (fst run) /\ contention (step_code (snd run)) = true.

(** The rows that [exec] makes of row answers. *)
Definition rows_of (columns : nat) (answers : list StepAnswer) : list RowType :=
  map (fun a => build_row a columns) answers.

(** The rows of all the runs of an interrupted statement, in order. *)
Definition rows_before (columns : nat)
    (runs : list (list StepAnswer * StepAnswer)) : list RowType :=
  flat_map (fun run => rows_of columns (fst run)) runs.

(** The headers once [collected] more rows are in: built from [names] at
    the first row if they were empty. *)
Definition headers_after (names h : list string) (collected : list RowType)
  : list string :=
  match collected with
  | [] => h
  | _ :: _ => match h with [] => names | _ :: _ => h end
  end.

(** The world after the constructor has made sure the file exists and has
    opened the connection. *)
Definition opened (e : Env) (db_filename : string) (w : World) : World :=
  emit (EOpen db_filename)
    (if stat_found e then w else emit (EFopen db_filename) w).

(** ** Sample inputs *)

Module Sample.

Local Open Scope string_scope.

Fixpoint lookup (key : string) (vars : list (string * string)) : option string :=
  match vars with
  | [] => None
  | (k, v) :: r => if String.eqb key k then Some v else lookup key r
  end.

(** An environment with the given variables, a working Logger, an existing
    file that opens, and a linear congruential [rand]. *)
Definition env_of (vars : list (string * string)) : Env :=
  mk_env (fun key => lookup key vars) true true
    (fun n => 1700000000 + Z.of_nat n) 4242
    (fun seed => Z.to_N ((seed * 1103515245 + 12345) mod 2 ^ 31))
    true true true 0.

Definition row (cells : list string) : StepAnswer :=
  mk_step SQLITE_ROW (map Some cells).

Definition answer (code : Z) : StepAnswer := mk_step code [].

Definition compiled (names : list string) : PrepareAnswer :=
  mk_prepare (Some (mk_stmt names)) SQLITE_OK.

Definition failed (code : Z) : PrepareAnswer := mk_prepare None code.

Definition world (p : list PrepareAnswer) (s : list StepAnswer) : World :=
  mk_world p s [] [].

Definition five_rows : list StepAnswer :=
  [row ["1"]; row ["2"]; row ["3"]; row ["4"]; row ["5"]; answer SQLITE_DONE].

Definition sessions : Registry :=
  register_table "sessions" "CREATE TABLE IF NOT EXISTS sessions (id integer)"
    (mk_registry [] []).

Definition a_command : DBObject :=
  mk_object "commands" [("command", quote "ls -l"); ("rval", "0")].

(** A store whose answer to the counting query is 2. *)
Definition drifted : World :=
  world [compiled ["table_count"]] [row ["2"]; answer SQLITE_DONE].

(** One row, then the store is busy, then the statement runs from its
    first row again. *)
Definition busy_after_first_row : World :=
  world [compiled ["id"]; compiled ["id"]]
    (row ["1"] :: answer SQLITE_BUSY :: five_rows).

(** The store is busy or locked for the first two compilations. *)
Definition busy_twice : World :=
  world [failed SQLITE_BUSY; failed SQLITE_LOCKED; compiled ["id"]] [].

End Sample.

(** ** Vocabulary of the further properties *)

(** The result codes that the [switch] of [exec] names. *)
Definition known_step_code (code : Z) : bool :=
  (code =? SQLITE_ROW) || (code =? SQLITE_CONSTRAINT) || (code =? SQLITE_DONE)
  || contention code.

Definition is_sql (ev : Event) : bool :=
  match ev with
  | EPrepare _ | EExec _ | EStep => true
  | _ => false
  end.

(** The text of a cell, the empty string for SQL NULL. *)
Definition text_or_empty (cell : option string) : string :=
  match cell with
  | Some text => text
  | None => EmptyString
  end.

(** A literal body in which every single quote is one of a pair. *)
Inductive escaped : string -> Prop :=
| escaped_empty : escaped EmptyString
| escaped_plain (c : ascii) (s : string) :
    c <> apostrophe -> escaped s -> escaped (String c s)
| escaped_pair (s : string) :
    escaped s -> escaped (String apostrophe (String apostrophe s)).

(** The characters that [quote] lets through. *)
Definition kept (c : ascii) : bool :=
  C.isprint c || Ascii.eqb c tab || Ascii.eqb c newline.

Fixpoint all_chars (p : ascii -> bool) (s : string) : bool :=
  match s with
  | EmptyString => true
  | String c r => p c && all_chars p r
  end.

(** ** Config: has and sets (src/config.cpp) *)

Definition has (e : Env) (key : string) : bool :=
  match get_ash_env e key with
  | Some _ => true
  | None => false
  end.

(** [env ? "true" == string(env) : dv]. *)
Definition sets (e : Env) (key : string) (dv : bool) : bool :=
  match get_ash_env e key with
  | Some env => String.eqb "true" env
  | None => dv
  end.

(** ** Logger: parse, to_str and get_target (src/logger.cpp) *)

Definition parse (input : string) : Severity :=
  if String.eqb input "DEBUG" then DEBUG
  else if String.eqb input "INFO" then INFO
  else if String.eqb input "WARNING" then WARNING
  else if String.eqb input "ERROR" then ERROR
  else if String.eqb input "FATAL" then FATAL
  else UNKNOWN.

Definition to_str (level : Severity) : string :=
  match level with
  | DEBUG => "DEBUG"
  | INFO => "INFO"
  | WARNING => "WARNING"
  | ERROR => "ERROR"
  | FATAL => "FATAL"
  | UNKNOWN => "UNKNOWN"
  end.

(** The value of an enumerator of [Severity]. *)
Definition severity_value (level : Severity) : Z :=
  match level with
  | DEBUG => 0
  | INFO => 1
  | WARNING => 2
  | ERROR => 3
  | FATAL => 4
  | UNKNOWN => 5
  end.

(** The file a Logger of this level writes to. *)
Definition get_target (e : Env) (level : Severity) : string :=
  let visible := parse (get_string e "LOG_LEVEL" "DEBUG") in
  if severity_value level <? severity_value visible then "/dev/null"%string
  else get_string e "LOG_FILE" "/dev/null".

(** ** ash_sleep: the sleeping itself (src/database.cpp, lines 200-276)

    What the event [ESleep ms] of [ash_sleep] stands for: the loop around
    [clock_nanosleep] and the measurement of the time slept. *)

Record timespec : Type := mk_timespec { tv_sec : Z; tv_nsec : Z }.

(** One call of [clock_nanosleep]: the value it returns and what the
    variable [remaining] holds after the call (the call writes it only
    when it is interrupted; before the first such call the variable is not
    initialised, so from the program's side it is an answer like the
    other). *)
Record Nap : Type := mk_nap { nap_rval : Z; nap_remaining : timespec }.

(** The two calls of [clock_gettime]: whether each succeeded, and what the
    variables [before_ts] and [after_ts] hold afterwards. *)
Record Clock : Type := mk_clock
  { before_ok : bool; before_ts : timespec;
    after_ok : bool; after_ts : timespec }.

Definition EINTR : Z := 4.
Definition EFAULT : Z := 14.
Definition EINVAL : Z := 22.

(** [to_sleep.tv_sec = ms / 1000L; to_sleep.tv_nsec = (ms % 1000L) * 1000000L]. *)
Definition timespec_of_ms (ms : Z) : timespec :=
  mk_timespec (ms / 1000) ((ms mod 1000) * 1000000).

Definition sleep_break_warning : list Item :=
  [Txt "Sleep break triggered.  CLOCK_MONOTONIC may not work as ";
   Txt "expected on your system.  Or the database may be ";
   Txt "extremely busy with concurrent requests."].

(** The [while] loop.  It returns the answers of [clock_nanosleep] that it
    did not use; every turn that sleeps uses one.  In the messages,
    [EngineMsg] stands for the text of [strerror]. *)
Fixpoint nanosleep_loop (e : Env) (ms : Z) (naps : list Nap)
    (sleep_attempts : Z) (to_sleep : timespec) : M (list Nap) :=
  if negb ((tv_sec to_sleep =? 0) && (tv_nsec to_sleep =? 0)) then
    if sleep_attempts =? 0 then
      LOG e WARNING sleep_break_warning ;;
      ret naps
    else
      match naps with
      | [] => stop Starved
      | nap :: naps' =>
          let sleep_attempts := sleep_attempts - 1 in
          let rval := nap_rval nap in
          if rval =? -1 then
            LOG e ERROR [Txt "Failed to clock_nanosleep: "; EngineMsg] ;;
            nanosleep_loop e ms naps' sleep_attempts to_sleep
          else
            (if rval =? 0 then ret tt
             else if rval =? EFAULT then
               LOG e ERROR [Txt "clock_nanosleep: EFAULT sleeping "; Num ms; Txt " ms."]
             else if rval =? EINTR then
               LOG e ERROR [Txt "clock_nanosleep: EINTR sleeping "; Num ms; Txt " ms."]
             else if rval =? EINVAL then
               LOG e ERROR [Txt "clock_nanosleep: EINVAL sleeping (tv_sec=";
                            Num (tv_sec to_sleep); Txt ", tv_nsec=";
                            Num (tv_nsec to_sleep); Txt ")"]
             else
               LOG e ERROR [Txt "Unexpected rval from clock_nanosleep: "; Num rval]) ;;
            let remaining := nap_remaining nap in
            if (tv_sec remaining =? 0)
               && (0 <? tv_nsec remaining)
               && (tv_nsec remaining <=? 999999999)
               && (tv_nsec remaining <? tv_nsec to_sleep)
            then
              LOG e DEBUG [Txt "slept (to_sleep.tv_nsec - remaining.tv_nsec = ";
                           Num (tv_nsec to_sleep); Txt " - ";
                           Num (tv_nsec remaining); Txt " = ";
                           Num (tv_nsec to_sleep - tv_nsec remaining); Txt ")"] ;;
              nanosleep_loop e ms naps' sleep_attempts remaining
            else nanosleep_loop e ms naps' sleep_attempts to_sleep
      end
  else ret naps.

(** Conversion to [unsigned long] (LP64). *)
Definition to_ulong (z : Z) : Z := z mod 2 ^ 64.

Definition in_long (z : Z) : bool := (C.LONG_MIN <=? z) && (z <=? C.LONG_MAX).

(** [(after_ts.tv_sec - before_ts.tv_sec) * 1000 +
     (after_ts.tv_nsec - before_ts.tv_nsec) / 1000000L], computed in
    [long], where the division truncates; [None] when a step of the
    computation overflows. *)
Definition elapsed_ms (clock : Clock) : option Z :=
  let seconds := tv_sec (after_ts clock) - tv_sec (before_ts clock) in
  let nanos := tv_nsec (after_ts clock) - tv_nsec (before_ts clock) in
  let elapsed := seconds * 1000 + Z.quot nanos 1000000 in
  if in_long seconds && in_long (seconds * 1000) && in_long nanos && in_long elapsed
  then Some elapsed
  else None.

(** Lines 200-276 of [ash_sleep], entered when [ms] is not zero.
    [retries * 2] is computed in [int] and must fit. *)
Definition sleep_phase (e : Env) (ms : Z) (clock : Clock) (naps : list Nap)
  : M (list Nap) :=
  when (negb (before_ok clock)) (does (ECerr [Txt "clock_gettime failed"; EngineMsg])) ;;
  let retries := sleep_retries e in
  if C.INT_MAX <? retries * 2 then stop Undefined
  else
    let sleep_attempts := C.to_uint (retries * 2) in
    unused <- nanosleep_loop e ms naps sleep_attempts (timespec_of_ms ms) ;;
    when (negb (after_ok clock)) (does (ECerr [Txt "clock_gettime failed"; EngineMsg])) ;;
    match elapsed_ms clock with
    | None => stop Undefined
    | Some elapsed =>
        let slept := to_ulong elapsed in
        LOG e INFO [Txt "Slept "; Num slept; Txt " milliseconds."] ;;
        when (slept <? ms)
          (LOG e ERROR [Txt "Failed to sleep "; Num ms; Txt " ms between failures."]) ;;
        when (to_ulong ((ms + 1) * 100) <? slept)
          (LOG e ERROR [Txt "Major clock problem detected.  Requested sleep of: ";
                        Num ms; Txt " ms took "; Num slept; Txt " ms to complete."]) ;;
        ret unused
    end.

(** ** Formatter (src/formatter.cpp)

    A [size_t] that holds the size of a string or of a container, or an
    index below one, is a [nat].  A function that reads a vector out of
    range has no defined result: [None]. *)

(** [for (i = start; i < start + n; ++i) body], stopping at an undefined
    turn. *)
Fixpoint for_loop {St : Type} (n : nat) (body : nat -> St -> option St)
    (i : nat) (s : St) : option St :=
  match n with
  | O => Some s
  | S n' =>
      match body i s with
      | Some s' => for_loop n' body (S i) s'
      | None => None
      end
  end.

(** [v[i] = x]. *)
Fixpoint assign {A : Type} (v : list A) (i : nat) (x : A) : option (list A) :=
  match v, i with
  | [], _ => None
  | _ :: v', O => Some (x :: v')
  | y :: v', S i' =>
      match assign v' i' x with
      | Some v'' => Some (y :: v'')
      | None => None
      end
  end.

(** [rs -> data[r][c]]. *)
Definition cell_at (rs : ResultSet) (r c : nat) : option string :=
  match nth_error (data rs) r with
  | Some row => nth_error row c
  | None => None
  end.

Definition XX : nat := 4.
Definition max_w : nat := 80.

(** [widths[c] = max(widths[c], min(max_w, XX + data[r][c].size()))]. *)
Definition widen (rs : ResultSet) (r c : nat) (widths : list nat)
  : option (list nat) :=
  match nth_error widths c, cell_at rs r c with
  | Some w, Some cell =>
      assign widths c (Nat.max w (Nat.min max_w (XX + String.length cell)))
  | _, _ => None
  end.

Definition get_widths (rs : ResultSet) (do_show_headings : bool)
  : option (list nat) :=
  let widths :=
    map (fun h => if do_show_headings then (XX + String.length h)%nat else XX)
      (headers rs) in
  for_loop (rows rs)
    (fun r widths => for_loop (columns rs) (fun c widths => widen rs r c widths) 0 widths)
    0 widths.

Fixpoint spaces (n : nat) : string :=
  match n with
  | O => EmptyString
  | S n' => String " "%char (spaces n')
  end.

(** [out << left << setw(w) << s]: [s], then spaces up to the width [w]. *)
Definition setw_left (w : nat) (s : string) : string :=
  (s ++ spaces (w - String.length s))%string.

Definition endl : string := String newline EmptyString.

(** [c < n - 1] on [size_t]: for [n = 0] the right side wraps to the
    largest value, which no index reaches. *)
Definition before_last (c n : nat) : bool :=
  match n with
  | O => true
  | S k => Nat.ltb c k
  end.

(** The loop over the headers in [SpacedFormatter::insert]; [c] is
    incremented only where a width is set. *)
Fixpoint spaced_headings (hs : list string) (widths : list nat) (c : nat)
    (out : string) : option string :=
  match hs with
  | [] => Some out
  | h :: hs' =>
      if before_last c (List.length widths) then
        match nth_error widths c with
        | Some w => spaced_headings hs' widths (S c) (out ++ setw_left w h)%string
        | None => None
        end
      else spaced_headings hs' widths c (out ++ h)%string
  end.

(** One cell of a row in [SpacedFormatter::insert]. *)
Definition spaced_cell (rs : ResultSet) (widths : list nat) (r c : nat)
    (out : string) : option string :=
  match cell_at rs r c with
  | Some cell =>
      if before_last c (columns rs) then
        match nth_error widths c with
        | Some w => Some (out ++ setw_left w cell)%string
        | None => None
        end
      else Some (out ++ cell)%string
  | None => None
  end.

(** [SpacedFormatter::insert(rs, out)]: what [out] holds afterwards. *)
Definition SpacedFormatter_insert (do_show_headings : bool)
    (rs : option ResultSet) (out : string) : option string :=
  match rs with
  | None => Some out
  | Some rs =>
      match get_widths rs do_show_headings with
      | None => None
      | Some widths =>
          match
            (if do_show_headings then
               match spaced_headings (headers rs) widths 0 out with
               | Some out => Some (out ++ endl)%string
               | None => None
               end
             else Some out)
          with
          | None => None
          | Some out =>
              for_loop (rows rs)
                (fun r out =>
                   match for_loop (columns rs) (spaced_cell rs widths r) 0 out with
                   | Some out => Some (out ++ endl)%string
                   | None => None
                   end)
                0 out
          end
      end
  end.

(** The loop over the headers in [insert_delimited]. *)
Fixpoint delimited_headings (hs : list string) (columns : nat) (d : string)
    (c : nat) (out : string) : string :=
  match hs with
  | [] => out
  | h :: hs' =>
      delimited_headings hs' columns d (S c)
        (out ++ h ++ (if Nat.ltb (c + 1) columns then d else EmptyString))%string
  end.

Definition delimited_cell (rs : ResultSet) (d : string) (r c : nat)
    (out : string) : option string :=
  match cell_at rs r c with
  | Some cell =>
      Some (out ++ cell ++ (if Nat.ltb (c + 1) (columns rs) then d else EmptyString))%string
  | None => None
  end.

(** [insert_delimited(rs, out, d, do_show_headings)]. *)
Definition insert_delimited (rs : option ResultSet) (out : string) (d : string)
    (do_show_headings : bool) : option string :=
  match rs with
  | None => Some out
  | Some rs =>
      let out :=
        if do_show_headings
        then (delimited_headings (headers rs) (columns rs) d 0 out ++ endl)%string
        else out in
      for_loop (rows rs)
        (fun r out =>
           match for_loop (columns rs) (delimited_cell rs d r) 0 out with
           | Some out => Some (out ++ endl)%string
           | None => None
           end)
        0 out
  end.

Definition CsvFormatter_insert (do_show_headings : bool) (rs : option ResultSet)
    (out : string) : option string :=
  insert_delimited rs out "," do_show_headings.

Definition NullFormatter_insert (do_show_headings : bool) (rs : option ResultSet)
    (out : string) : option string :=
  insert_delimited rs out (String (ascii_of_nat 0) EmptyString) do_show_headings.

(** What the constructor of a ResultSet makes true, and [exec] too: the
    counts are the sizes, and every row has [columns] cells. *)
Definition well_formed (rs : ResultSet) : Prop :=
  rows rs = List.length (data rs)
  /\ columns rs = List.length (headers rs)
  /\ Forall (fun row : RowType => List.length row = columns rs) (data rs).

(** The text of one row with the delimiter between its cells. *)
Definition delimited_line (d : string) (row : list string) : string :=
  (String.concat d row ++ endl)%string.

(** The sum of the first [c] widths: where column [c] begins. *)
Definition column_offset (widths : list nat) (c : nat) : nat :=
  fold_right Nat.add 0%nat (firstn c widths).

(** The widths after one more row: each is the larger of what it was and
    of the width the cell needs, capped at [max_w]. *)
Fixpoint widen_row (widths : list nat) (row : list string) : list nat :=
  match widths, row with
  | w :: widths', cell :: row' =>
      Nat.max w (Nat.min max_w (XX + String.length cell)) :: widen_row widths' row'
  | _, _ => widths
  end.

(** A line of the aligned output: every cell but the last is padded to
    the width of its column. *)
Fixpoint spaced_line (widths : list nat) (cells : list string) {struct cells}
    : string :=
  match cells with
  | [] => EmptyString
  | [cell] => cell
  | cell :: cells' =>
      match widths with
      | w :: widths' => (setw_left w cell ++ spaced_line widths' cells')%string
      | [] => EmptyString
      end
  end.

(** * Properties *)

(** ** Quoting *)

Section Quote.

Local Open Scope string_scope.

Lemma append_assoc (a b c : string) : (a ++ b) ++ c = a ++ (b ++ c).
Proof.
  induction a as [|x a IH]; simpl; [reflexivity | now rewrite IH].
Qed.

Lemma append_empty (a : string) : a ++ "" = a.
Proof.
  induction a as [|x a IH]; simpl; [reflexivity | now rewrite IH].
Qed.

(** One turn of the loop appends what the specification says the
    character contributes. *)
Lemma quote_switch_char (out : string) (c : ascii) :
  quote_switch out c = out ++ quoted_char c.
Proof.
  unfold quote_switch, quoted_char, push_back.
  rewrite (orb_comm (Ascii.eqb c newline)).
  destruct (Ascii.eqb c tab || Ascii.eqb c newline); [reflexivity|].
  destruct (Ascii.eqb c apostrophe) eqn:Hq.
  - apply Ascii.eqb_eq in Hq; subst c.
    change (C.isprint apostrophe) with true.
    now rewrite append_assoc.
  - destruct (C.isprint c); [reflexivity | now rewrite append_empty].
Qed.

Lemma quote_for_body (i out : string) :
  quote_for i out = out ++ quoted_body i.
Proof.
  revert out; induction i as [|c i IH]; intros out; simpl.
  - now rewrite append_empty.
  - now rewrite IH, quote_switch_char, append_assoc.
Qed.

(** C5.  [DBObject::quote] maps the empty string to the unquoted keyword
    null; a non-empty input is wrapped in single quotes, with every single
    quote in it doubled, every other printable character kept, tab and
    newline kept, and every other character dropped: [quote] is the
    function [quote_spec] written from the specification.  In particular
    the literal of it's is 'it''s', and a bell character is dropped while
    the tab and the newline next to it stay. *)
Theorem quote_meets_spec :
  (forall raw : string, quote raw = quote_spec raw)
  /\ quote "" = "null"
  /\ quote "it's" = "'it''s'"
  /\ quote (String "a" (String (ascii_of_nat 7) (String tab (String newline "b"))))
     = String "'" (String "a" (String tab (String newline "b'"))).
Proof.
  split; [|repeat split; reflexivity].
  intros [|c r]; [reflexivity|].
  unfold quote, quote_spec, push_back.
  rewrite quote_for_body.
  change (String c r =? "") with false; cbv iota.
  now rewrite append_assoc.
Qed.

End Quote.

(** ** Commands that leave the step script alone *)

Section Frames.

Variable e : Env.

Lemma set_steps_emit (ev : Event) (s : list StepAnswer) (w : World) :
  emit ev (set_steps s w) = set_steps s (emit ev w).
Proof. reflexivity. Qed.

Lemma set_steps_twice (s s' : list StepAnswer) (w : World) :
  set_steps s (set_steps s' w) = set_steps s w.
Proof. reflexivity. Qed.

Lemma set_steps_same (w : World) : set_steps (steps w) w = w.
Proof. now destruct w. Qed.

Lemma ret_free {A : Type} (a : A) : steps_free (ret a).
Proof. intros s w; reflexivity. Qed.

Lemma stop_free {A : Type} (h : Halt) : steps_free (@stop A h).
Proof. intros s w; reflexivity. Qed.

Lemma does_free (ev : Event) : steps_free (does ev).
Proof. intros s w; reflexivity. Qed.

Lemma bind_free {A B : Type} (m : M A) (k : A -> M B) :
  steps_free m -> (forall a, steps_free (k a)) -> steps_free (bind m k).
Proof.
  intros Hm Hk s w; unfold bind.
  rewrite Hm.
  destruct (m w) as [[a|h] w']; simpl; [apply Hk | reflexivity].
Qed.

Lemma when_free (b : bool) (m : M unit) : steps_free m -> steps_free (when b m).
Proof. destruct b; simpl; [trivial | intros _; apply ret_free]. Qed.

Lemma LOG_FATAL_free {A : Type} (msg : list Item) : steps_free (@LOG_FATAL A msg).
Proof. apply bind_free; [apply does_free | intros; apply stop_free]. Qed.

Lemma LOG_free (level : Severity) (msg : list Item) : steps_free (LOG e level msg).
Proof.
  unfold LOG.
  destruct level; try apply LOG_FATAL_free;
    (destruct (negb (localtime_ok e)); [apply LOG_FATAL_free|];
     destruct (negb (strftime_ok e)); [apply LOG_FATAL_free | apply does_free]).
Qed.

Lemma sleep_ms_free : steps_free (sleep_ms e).
Proof.
  unfold sleep_ms.
  destruct (0 <? random_ms e); [intros s w; reflexivity | apply ret_free].
Qed.

Lemma ash_sleep_free : steps_free (ash_sleep e).
Proof.
  apply bind_free; [apply sleep_ms_free | intros ms].
  apply bind_free; [apply LOG_free | intros _].
  destruct (ms =? 0); [apply ret_free|].
  destruct (C.INT_MAX <? sleep_retries e * 2); [apply stop_free | apply does_free].
Qed.

Lemma sqlite3_prepare_v2_free (query : string) : steps_free (sqlite3_prepare_v2 query).
Proof.
  intros s w; unfold sqlite3_prepare_v2; simpl.
  destruct (prepares w); reflexivity.
Qed.

Lemma try_prepare_free (query : string) (max_retries : Z) (fuel : nat) :
  forall tries, steps_free (try_prepare fuel e query max_retries tries).
Proof.
  induction fuel as [|fuel IH]; intros tries; cbn [try_prepare]; [apply stop_free|].
  apply bind_free; [apply sqlite3_prepare_v2_free | intros a].
  unfold prepare_switch.
  destruct (prepared a); [apply ret_free|].
  destruct (contention (errcode a)); [|apply LOG_FATAL_free].
  apply bind_free; [apply LOG_free | intros _].
  apply bind_free; [apply does_free | intros _].
  destruct (0 <? tries - 1); [|apply LOG_FATAL_free].
  apply bind_free; [apply LOG_free | intros _].
  apply bind_free; [apply ash_sleep_free | intros _].
  apply IH.
Qed.

Lemma first_tries_free (max_retries : Z) : steps_free (first_tries max_retries).
Proof.
  unfold first_tries.
  destruct (max_retries =? C.INT_MAX); [apply stop_free | apply ret_free].
Qed.

Lemma prepare_stmt_free (query : string) : steps_free (prepare_stmt e query).
Proof.
  apply bind_free; [apply first_tries_free | intros tries].
  intros s w; cbn [prepares set_steps]; apply try_prepare_free.
Qed.

(** Running a command that leaves the step script alone, then another. *)
Lemma bind_frame {A B : Type} (m : M A) (k : A -> M B) s w :
  steps_free m ->
  bind m k (set_steps s w) =
  match m w with
  | (Ret a, w') => k a (set_steps s w')
  | (Stop h, w') => (Stop h, set_steps s w')
  end.
Proof.
  intros Hm; unfold bind; rewrite Hm.
  destruct (m w) as [[a|h] w']; reflexivity.
Qed.

End Frames.

(** ** Runs with a working Logger *)

Section Runs.

Variable e : Env.
Hypothesis logger_works : logger_ok e = true.

Lemma LOG_ok (level : Severity) (msg : list Item) (w : World) :
  level <> FATAL -> LOG e level msg w = (Ret tt, emit (ELog level msg) w).
Proof.
  intros Hl; unfold LOG, logger_ok in *.
  apply andb_prop in logger_works as [-> ->]; simpl.
  destruct level; try reflexivity; now elim Hl.
Qed.

Lemma exec_for_cons (fuel : nat) (query : string) (limit max_retries : Z)
    (columns : nat) (l : Locals) (a : StepAnswer) (s : list StepAnswer) (w : World) :
  exec_for (S fuel) e query limit max_retries columns l (set_steps (a :: s) w) =
  if (l_fetched l <? limit) || (limit <=? 0) then
    exec_switch e query max_retries columns
      (exec_for fuel e query limit max_retries columns) l a
      (set_steps s (emit EStep w))
  else (Ret l, set_steps (a :: s) w).
Proof.
  cbn [exec_for].
  destruct ((l_fetched l <? limit) || (limit <=? 0)); reflexivity.
Qed.

Lemma alike_steps {A : Type} (o : Outcome A) (s1 s2 : list StepAnswer) (w : World) :
  alike (o, set_steps s1 w) (o, set_steps s2 w).
Proof. repeat split. Qed.

(** *** A constraint violation ends the loop as a completion does *)

(** The switch runs alike on two step scripts when the rest of the loop
    does. *)
Lemma exec_switch_alike (query : string) (max_retries : Z) (columns : nat)
    (again1 again2 : Locals -> M Locals) (s1 s2 : list StepAnswer) :
  (forall l w, alike (again1 l (set_steps s1 w)) (again2 l (set_steps s2 w))) ->
  forall l a w,
    alike (exec_switch e query max_retries columns again1 l a (set_steps s1 w))
          (exec_switch e query max_retries columns again2 l a (set_steps s2 w)).
Proof.
  intros Hagain l a w; unfold exec_switch.
  destruct (step_code a =? SQLITE_ROW).
  { destruct (match l_headers l with
              | [] => build_headers (l_ps l) columns
              | _ :: _ => Some (l_headers l)
              end); [|apply alike_steps].
    destruct (l_fetched l =? C.INT_MAX); [apply alike_steps | apply Hagain]. }
  destruct (step_code a =? SQLITE_CONSTRAINT).
  { rewrite !bind_frame by apply LOG_free.
    destruct (LOG e DEBUG _ w) as [[[]|h] w']; apply alike_steps. }
  destruct (step_code a =? SQLITE_DONE); [apply alike_steps|].
  destruct (contention (step_code a)).
  - rewrite !bind_frame by (apply when_free, LOG_FATAL_free).
    destruct (when _ _ w) as [[[]|h] w1]; [|apply alike_steps].
    rewrite !bind_frame by apply ash_sleep_free.
    destruct (ash_sleep e w1) as [[[]|h] w2]; [|apply alike_steps].
    rewrite !bind_frame by apply does_free.
    cbn [sqlite3_finalize does].
    rewrite !bind_frame by apply prepare_stmt_free.
    destruct (prepare_stmt e query _) as [[ps|h] w3]; [|apply alike_steps].
    rewrite !bind_frame by apply LOG_free.
    destruct (LOG e WARNING _ w3) as [[[]|h] w4]; [apply Hagain | apply alike_steps].
  - rewrite !bind_frame by apply does_free.
    cbn [sqlite3_finalize does].
    rewrite !bind_frame by apply does_free.
    cbn [does].
    rewrite !(LOG_FATAL_free (A := Locals)).
    apply alike_steps.
Qed.

(** From any point of the loop on, a constraint violation and a normal
    completion at the same place of the step script end the loop alike. *)
Lemma exec_for_constraint_done (query : string) (limit max_retries : Z)
    (columns : nat) (cells cells' : list (option string))
    (rest rest' : list StepAnswer) :
  forall (pre : list StepAnswer) (l : Locals) (w : World),
    alike
      (exec_for (List.length (pre ++ mk_step SQLITE_CONSTRAINT cells :: rest))
         e query limit max_retries columns l
         (set_steps (pre ++ mk_step SQLITE_CONSTRAINT cells :: rest) w))
      (exec_for (List.length (pre ++ mk_step SQLITE_DONE cells' :: rest'))
         e query limit max_retries columns l
         (set_steps (pre ++ mk_step SQLITE_DONE cells' :: rest') w)).
Proof.
  induction pre as [|a pre IH]; intros l w;
    cbn [app List.length]; rewrite !exec_for_cons;
    (destruct ((l_fetched l <? limit) || (limit <=? 0)); [|apply alike_steps]).
  - unfold exec_switch; cbn [step_code].
    change (SQLITE_CONSTRAINT =? SQLITE_ROW) with false.
    change (SQLITE_DONE =? SQLITE_ROW) with false.
    change (SQLITE_CONSTRAINT =? SQLITE_CONSTRAINT) with true.
    change (SQLITE_DONE =? SQLITE_CONSTRAINT) with false.
    change (SQLITE_DONE =? SQLITE_DONE) with true.
    cbv iota.
    unfold bind; rewrite LOG_ok by discriminate.
    repeat split.
  - apply exec_switch_alike; intros l' w'; apply IH.
Qed.

(** C3 (amended).  While the Logger can stamp its lines: when stepping
    yields a constraint violation, [exec] ends without a retry and as it
    ends when the statement completes at that place of the step script,
    with the same result (the same ResultSet, or null in both runs), the
    same calls to the engine and the same log apart from one DEBUG line.
    The caller cannot tell a constraint violation from a normal
    completion. *)
Theorem constraint_violation_ends_like_completion
    (query : string) (limit : Z) (reverse : bool)
    (pre rest rest' : list StepAnswer) (cells cells' : list (option string))
    (w : World) :
  alike
    (exec e query limit reverse
       (set_steps (pre ++ mk_step SQLITE_CONSTRAINT cells :: rest) w))
    (exec e query limit reverse
       (set_steps (pre ++ mk_step SQLITE_DONE cells' :: rest') w)).
Proof.
  unfold exec.
  rewrite !bind_frame by apply first_tries_free.
  destruct (first_tries (db_max_retries e) w) as [[tries|h] w1];
    [|apply alike_steps].
  rewrite !bind_frame by apply prepare_stmt_free.
  destruct (prepare_stmt e query w1) as [[ps|h] w2]; [|apply alike_steps].
  unfold bind at 1 3; cbn [steps set_steps].
  pose proof (exec_for_constraint_done query limit (db_max_retries e)
                (sqlite3_column_count ps) cells cells' rest rest' pre
                (mk_locals ps tries 0 0 [] []) w2) as H.
  unfold set_steps in H; cbn [prepares rowids trace] in *.
  destruct (exec_for (List.length (pre ++ mk_step SQLITE_CONSTRAINT cells :: rest)) _ _ _ _ _ _ _)
    as [o1 x1].
  destruct (exec_for (List.length (pre ++ mk_step SQLITE_DONE cells' :: rest')) _ _ _ _ _ _ _)
    as [o2 x2].
  destruct H as (Ho & Hp & Hr & Hv); cbn [fst snd] in *; subst o2.
  destruct o1 as [l|h]; [|repeat split; assumption].
  repeat split; cbn [fst snd bind sqlite3_finalize does ret emit prepares rowids];
    try assumption.
  unfold visible in *; cbn [trace emit filter is_debug negb]; now rewrite Hv.
Qed.


(** *** Compiling a statement under contention *)

(** [retries * 2] in [ash_sleep] fits an [int]. *)
Hypothesis sleep_fits : sleep_retries e * 2 <= C.INT_MAX.

Lemma ash_sleep_ok (p : list PrepareAnswer) (s : list StepAnswer) (r : list Z)
    (t : list Event) :
  exists t',
    ash_sleep e (mk_world p s r t) = (Ret tt, mk_world p s r t')
    /\ attempts t' = attempts t
    /\ backoffs t' = S (backoffs t).
Proof.
  assert (Hfits : (C.INT_MAX <? sleep_retries e * 2) = false)
    by (apply Z.ltb_ge; exact sleep_fits).
  unfold ash_sleep, sleep_ms; rewrite Hfits.
  destruct (0 <? random_ms e); unfold bind; cbn [ret];
    rewrite LOG_ok by discriminate;
    match goal with |- context [?ms =? 0] => destruct (ms =? 0) end;
    eexists; (split; [reflexivity | split; reflexivity]).
Qed.

Lemma contended_inv (a : PrepareAnswer) :
  contended a = true -> prepared a = None /\ contention (errcode a) = true.
Proof. unfold contended; destruct (prepared a); [discriminate | auto]. Qed.

(** Each contended compilation, while tries are left, costs one attempt and
    one backoff and leaves one try less. *)
Lemma try_prepare_contended (query : string) (max_retries : Z)
    (rest : list PrepareAnswer) (s : list StepAnswer) (r : list Z) :
  forall (fails : list PrepareAnswer) (tries : Z) (t : list Event),
    Forall (fun a => contended a = true) fails ->
    Z.of_nat (List.length fails) < tries ->
    exists t',
      try_prepare (List.length (fails ++ rest)) e query max_retries tries
        (mk_world (fails ++ rest) s r t)
      = try_prepare (List.length rest) e query max_retries
          (tries - Z.of_nat (List.length fails)) (mk_world rest s r t')
      /\ attempts t' = (attempts t + List.length fails)%nat
      /\ backoffs t' = (backoffs t + List.length fails)%nat.
Proof.
  induction fails as [|a fails IH]; intros tries t Hall Hlen.
  - exists t; cbn [app List.length]; rewrite Z.sub_0_r, !Nat.add_0_r; auto.
  - inversion Hall as [|? ? Ha Hall']; subst.
    apply contended_inv in Ha as [Hnone Hcont].
    cbn [List.length] in Hlen; rewrite Nat2Z.inj_succ in Hlen.
    cbn [app List.length try_prepare].
    unfold bind at 1; cbn [sqlite3_prepare_v2 prepares steps rowids trace emit].
    unfold prepare_switch; rewrite Hnone, Hcont.
    unfold bind at 1; rewrite LOG_ok by discriminate.
    unfold bind at 1; cbn [sqlite3_finalize does emit prepares steps rowids trace].
    replace (0 <? tries - 1) with true by (symmetry; apply Z.ltb_lt; lia).
    unfold bind at 1; rewrite LOG_ok by discriminate.
    cbn [emit prepares steps rowids trace].
    unfold bind at 1.
    unfold emit; cbn [prepares steps rowids trace].
    match goal with |- context [ash_sleep e (mk_world ?p ?s ?r ?t0)] =>
      destruct (ash_sleep_ok p s r t0) as (t1 & Hs & Hat & Hbk) end.
    rewrite Hs.
    destruct (IH (tries - 1) t1 Hall' ltac:(lia)) as (t' & Ht & Hat' & Hbk').
    rewrite Ht.
    exists t'; split; [f_equal; cbn [List.length]; lia|].
    rewrite Hat', Hbk', Hat, Hbk; cbn [List.length]; unfold attempts, backoffs; simpl.
    split; lia.
Qed.

Lemma db_max_retries_value :
  db_max_retries e =
  (if get_int e "DB_MAX_RETRIES" (-1) <=? 0 then 5
   else get_int e "DB_MAX_RETRIES" (-1))
  /\ 1 <= db_max_retries e.
Proof.
  unfold db_max_retries; split; [reflexivity|].
  destruct (get_int e "DB_MAX_RETRIES" (-1) <=? 0) eqn:H; [lia|].
  apply Z.leb_gt in H; lia.
Qed.

Hypothesis tries_fit : db_max_retries e < C.INT_MAX.

Lemma first_tries_ok (w : World) :
  first_tries (db_max_retries e) w = (Ret (db_max_retries e + 1), w).
Proof.
  unfold first_tries.
  replace (db_max_retries e =? C.INT_MAX) with false; [reflexivity|].
  symmetry; apply Z.eqb_neq; lia.
Qed.

Lemma prepare_stmt_unfold (query : string) (w : World) :
  prepare_stmt e query w =
  try_prepare (List.length (prepares w)) e query (db_max_retries e)
    (db_max_retries e + 1) w.
Proof. unfold prepare_stmt, bind; now rewrite first_tries_ok. Qed.

(** After at most [max_retries] contended compilations, a compilation that
    succeeds is returned. *)
Lemma prepare_stmt_succeeds (query : string) (w : World)
    (fails : list PrepareAnswer) (a : PrepareAnswer) (rest : list PrepareAnswer)
    (ps : sqlite3_stmt) :
  prepares w = fails ++ a :: rest ->
  Forall (fun a => contended a = true) fails ->
  Z.of_nat (List.length fails) <= db_max_retries e ->
  prepared a = Some ps ->
  exists w',
    prepare_stmt e query w = (Ret ps, w')
    /\ prepares w' = rest /\ steps w' = steps w /\ rowids w' = rowids w
    /\ attempts (trace w') = (attempts (trace w) + List.length fails + 1)%nat
    /\ backoffs (trace w') = (backoffs (trace w) + List.length fails)%nat.
Proof.
  intros Hp Hall Hlen Ha.
  rewrite prepare_stmt_unfold.
  destruct w as [p s r t]; cbn [prepares steps rowids trace] in *; subst p.
  destruct (try_prepare_contended query (db_max_retries e) (a :: rest) s r
              fails (db_max_retries e + 1) t Hall ltac:(lia))
    as (t' & -> & Hat & Hbk).
  cbn [List.length try_prepare].
  unfold bind, sqlite3_prepare_v2; cbn [prepares steps rowids trace].
  unfold prepare_switch; rewrite Ha.
  eexists; split; [reflexivity|].
  unfold emit; cbn [prepares steps rowids trace].
  repeat split.
  - unfold attempts in *; cbn [filter is_prepare List.length]; lia.
  - exact Hbk.
Qed.


(** One contended compilation more than [max_retries] ends the process:
    the first attempt and [max_retries] retries were made. *)
Lemma prepare_stmt_exhausted (query : string) (w : World)
    (fails rest : list PrepareAnswer) :
  prepares w = fails ++ rest ->
  Forall (fun a => contended a = true) fails ->
  Z.of_nat (List.length fails) = db_max_retries e + 1 ->
  exists w',
    prepare_stmt e query w = (Stop Exited, w')
    /\ prepares w' = rest
    /\ Z.of_nat (attempts (trace w')) =
       Z.of_nat (attempts (trace w)) + db_max_retries e + 1
    /\ Z.of_nat (backoffs (trace w')) =
       Z.of_nat (backoffs (trace w)) + db_max_retries e.
Proof.
  intros Hp Hall Hlen.
  destruct (exists_last (l := fails)) as (fails0 & a & ->).
  { intros ->; cbn in Hlen; pose proof (proj2 db_max_retries_value); lia. }
  rewrite length_app in Hlen; cbn [List.length] in Hlen.
  apply Forall_app in Hall as [Hall0 Ha].
  inversion Ha as [|? ? Hca _]; subst.
  apply contended_inv in Hca as [Hnone Hcont].
  rewrite prepare_stmt_unfold.
  destruct w as [p s r t]; cbn [prepares steps rowids trace] in *; subst p.
  rewrite <- app_assoc; cbn [app].
  destruct (try_prepare_contended query (db_max_retries e) (a :: rest) s r
              fails0 (db_max_retries e + 1) t Hall0 ltac:(lia))
    as (t' & -> & Hat & Hbk).
  cbn [List.length try_prepare].
  unfold bind at 1; unfold sqlite3_prepare_v2; cbn [prepares steps rowids trace].
  unfold prepare_switch; rewrite Hnone, Hcont.
  unfold bind at 1; rewrite LOG_ok by discriminate.
  unfold bind at 1; cbn [sqlite3_finalize does].
  replace (0 <? db_max_retries e + 1 - Z.of_nat (List.length fails0) - 1)
    with false by (symmetry; apply Z.ltb_ge; lia).
  eexists; split; [reflexivity|].
  unfold emit; cbn [prepares steps rowids trace].
  repeat split.
  - unfold attempts in *; cbn [filter is_prepare is_backoff List.length]; lia.
  - unfold backoffs in *; cbn [filter is_prepare is_backoff List.length]; lia.
Qed.



(** *** Stepping a statement under contention *)

Lemma contention_codes (code : Z) :
  contention code = true ->
  (code =? SQLITE_ROW) = false
  /\ (code =? SQLITE_CONSTRAINT) = false
  /\ (code =? SQLITE_DONE) = false.
Proof.
  unfold contention, SQLITE_LOCKED, SQLITE_BUSY, SQLITE_ROW, SQLITE_CONSTRAINT,
    SQLITE_DONE.
  intros H; apply orb_prop in H as [H|H]; apply Z.eqb_eq in H; subst code;
    repeat split.
Qed.

Lemma exec_for_step (fuel : nat) (query : string) (limit max_retries : Z)
    (columns : nat) (l : Locals) (a : StepAnswer) (p : list PrepareAnswer)
    (s : list StepAnswer) (r : list Z) (t : list Event) :
  (l_fetched l <? limit) || (limit <=? 0) = true ->
  exec_for (S fuel) e query limit max_retries columns l (mk_world p (a :: s) r t) =
  exec_switch e query max_retries columns
    (exec_for fuel e query limit max_retries columns) l a
    (mk_world p s r (EStep :: t)).
Proof. intros H; cbn [exec_for]; now rewrite H. Qed.

Lemma loop_starts (limit : Z) : (0 <? limit) || (limit <=? 0) = true.
Proof.
  destruct (0 <? limit) eqn:H; [reflexivity|].
  apply Z.ltb_ge, Z.leb_le in H; now rewrite H.
Qed.

(** *** How often a contended compilation is tried *)


(** *** Opening a store that has more tables than the registry *)

Lemma Database_new_opened (r : Registry) (db_filename : string) (w : World) :
  stat_found e = true \/ fopen_ok e = true ->
  sqlite3_open_ok e = true ->
  Database_new e r db_filename w =
  (rs <- exec e (count_query r) 0 false ;;
   defined_tables <- defined_tables_of rs ;;
   if defined_tables =? Z.of_nat (List.length (table_names r)) then ret tt
   else
     init_db e r ;;
     when (Z.of_nat (List.length (table_names r)) <? defined_tables)
       (LOG e WARNING [Txt "Expected "; Num (Z.of_nat (List.length (table_names r)));
                       Txt " tables to be defined, found "; Num defined_tables;
                       Txt " instead."]))
    (opened e db_filename w).
Proof.
  intros Hfile Hopen; unfold Database_new, opened.
  rewrite Hopen.
  destruct (stat_found e); [reflexivity|].
  destruct Hfile as [Hfile|Hfile]; [discriminate|].
  now rewrite Hfile.
Qed.

(** C2 (amended).  While the Logger can stamp its lines: when the counting
    query tells the constructor that more registered table names are in
    the store than the registry has, the constructor does not skip the
    bootstrap: it runs the table-creation statements of the registry with
    [sqlite3_exec], as it does when tables are missing, then logs a
    warning, and returns; the process does not exit. *)
Theorem schema_drift_bootstraps_then_warns
    (r : Registry) (db_filename : string) (w w1 : World)
    (rs : option ResultSet) (defined_tables : Z) :
  stat_found e = true \/ fopen_ok e = true ->
  sqlite3_open_ok e = true ->
  exec e (count_query r) 0 false (opened e db_filename w) = (Ret rs, w1) ->
  defined_tables_of rs w1 = (Ret defined_tables, w1) ->
  Z.of_nat (List.length (table_names r)) < defined_tables ->
  exists w2 report,
    Database_new e r db_filename w = (Ret tt, w2)
    /\ trace w2 =
       ELog WARNING [Txt "Expected "; Num (Z.of_nat (List.length (table_names r)));
                     Txt " tables to be defined, found "; Num defined_tables;
                     Txt " instead."]
       :: report ++ EExec (get_create_tables r) :: trace w1
    /\ (report = [] \/ exists msg, report = [ECerr msg]).
Proof.
  intros Hfile Hopen Hexec Hcount Hmore.
  rewrite Database_new_opened by assumption.
  unfold bind at 1; rewrite Hexec.
  unfold bind at 1; rewrite Hcount.
  replace (defined_tables =? Z.of_nat (List.length (table_names r))) with false
    by (symmetry; apply Z.eqb_neq; lia).
  replace (Z.of_nat (List.length (table_names r)) <? defined_tables) with true
    by (symmetry; apply Z.ltb_lt; lia).
  unfold init_db, bind, does, when.
  destruct (negb (sqlite3_exec_rc e =? 0)); cbv beta iota; unfold ret;
    rewrite LOG_ok by discriminate.
  - eexists; eexists [_]; split; [reflexivity|]; split; [reflexivity|].
    right; eexists; reflexivity.
  - eexists; exists []; split; [reflexivity|]; split; [reflexivity|].
    now left.
Qed.

End Runs.

(** ** The shape of a ResultSet *)

Section Shape.

Variable e : Env.

Lemma bind_returns {A B : Type} (m : M A) (k : A -> M B) (w w' : World) (b : B) :
  bind m k w = (Ret b, w') ->
  exists a w1, m w = (Ret a, w1) /\ k a w1 = (Ret b, w').
Proof.
  unfold bind; destruct (m w) as [[a|h] w1]; [eauto | discriminate].
Qed.

Lemma length_build_row (a : StepAnswer) (columns : nat) :
  List.length (build_row a columns) = columns.
Proof. unfold build_row; now rewrite length_map, length_seq. Qed.

Lemma length_push_names (ps : sqlite3_stmt) :
  forall (cs : list nat) (headers names : list string),
    push_names ps cs headers = Some names ->
    List.length names = (List.length headers + List.length cs)%nat.
Proof.
  induction cs as [|c cs IH]; intros headers names; cbn [push_names List.length].
  - intros [= <-]; lia.
  - destruct (sqlite3_column_name ps c) as [name|]; [|discriminate].
    intros H; apply IH in H; rewrite H, length_app; cbn [List.length]; lia.
Qed.

Lemma length_build_headers (ps : sqlite3_stmt) (columns : nat)
    (names : list string) :
  build_headers ps columns = Some names -> List.length names = columns.
Proof.
  unfold build_headers; intros H; apply length_push_names in H.
  now rewrite H, length_seq.
Qed.

Lemma exec_switch_shaped (query : string) (max_retries : Z) (columns : nat)
    (again : Locals -> M Locals) :
  (forall l w l' w', shaped columns l -> again l w = (Ret l', w') -> shaped columns l') ->
  forall l a w l' w',
    shaped columns l ->
    exec_switch e query max_retries columns again l a w = (Ret l', w') ->
    shaped columns l'.
Proof.
  intros Hagain l a w l' w' Hl; unfold exec_switch.
  pose proof Hl as (Hrows & Hhead & Hsome).
  destruct (step_code a =? SQLITE_ROW).
  { destruct (match l_headers l with
              | [] => build_headers (l_ps l) columns
              | _ :: _ => Some (l_headers l)
              end) as [names|] eqn:Hnames; [|discriminate].
    destruct (l_fetched l =? C.INT_MAX); [discriminate|].
    apply Hagain; unfold shaped; cbn [l_results l_headers l_rows].
    assert (Hh : List.length names = columns).
    { destruct (l_headers l) eqn:E; [now apply length_build_headers in Hnames|].
      injection Hnames as <-.
      destruct Hhead as [Hhead|Hhead]; [discriminate | exact Hhead]. }
    repeat split.
    - apply Forall_app; split; [exact Hrows|].
      constructor; [apply length_build_row | constructor].
    - now right.
    - now destruct (l_results l).
    - exact Hh. }
  destruct (step_code a =? SQLITE_CONSTRAINT).
  { intros H; apply bind_returns in H as (? & ? & _ & [= <- _]).
    exact Hl. }
  destruct (step_code a =? SQLITE_DONE).
  { intros [= <- _]; exact Hl. }
  destruct (contention (step_code a)).
  - intros H.
    apply bind_returns in H as (? & ? & _ & H).
    apply bind_returns in H as (? & ? & _ & H).
    apply bind_returns in H as (? & ? & _ & H).
    apply bind_returns in H as (ps & ? & _ & H).
    apply bind_returns in H as (? & ? & _ & H).
    apply Hagain in H; [exact H|].
    unfold shaped; cbn [l_results l_headers l_rows].
    split; [exact Hrows|]; split; [exact Hhead|].
    intros Hzero; now elim Hzero.
  - intros H.
    apply bind_returns in H as (? & ? & _ & H).
    apply bind_returns in H as (? & ? & _ & H).
    discriminate.
Qed.

Lemma exec_for_shaped (query : string) (limit max_retries : Z) (columns : nat) :
  forall fuel l w l' w',
    shaped columns l ->
    exec_for fuel e query limit max_retries columns l w = (Ret l', w') ->
    shaped columns l'.
Proof.
  induction fuel as [|fuel IH]; intros l w l' w' Hl; cbn [exec_for];
    destruct ((l_fetched l <? limit) || (limit <=? 0));
    try discriminate; try (intros [= <- _]; exact Hl).
  intros H; apply bind_returns in H as (a & w1 & _ & H).
  eapply exec_switch_shaped; eauto.
Qed.

(** C8.  Every ResultSet that [exec] returns has [rows] equal to the
    number of rows of [data] and [columns] equal to the number of
    [headers], every row of [data] has [columns] cells, and [rows] is not
    zero: for a result without rows [exec] returns null instead.  (The
    members of a ResultSet are const, and only [exec] constructs one.) *)
Theorem result_set_invariant (query : string) (limit : Z) (reverse : bool)
    (w w' : World) (rs : ResultSet) :
  exec e query limit reverse w = (Ret (Some rs), w') ->
  rows rs = List.length (data rs)
  /\ columns rs = List.length (headers rs)
  /\ Forall (fun row => List.length row = columns rs) (data rs)
  /\ rows rs <> 0%nat.
Proof.
  unfold exec; intros H.
  apply bind_returns in H as (tries & w1 & _ & H).
  apply bind_returns in H as (ps & w2 & _ & H).
  apply bind_returns in H as (l & w3 & Hfor & H).
  apply bind_returns in H as (? & w4 & _ & H).
  apply exec_for_shaped in Hfor as (Hrows & _ & Hsome).
  2:{ unfold shaped; cbn [l_results l_headers l_rows].
      split; [constructor|]; split; [now left|].
      intros Hzero; now elim Hzero. }
  unfold ret in H.
  destruct (l_rows l =? 0) eqn:Hz; [discriminate|].
  apply Z.eqb_neq in Hz; destruct (Hsome Hz) as [Hne Hcols].
  injection H as <- _.
  unfold ResultSet_new; cbn [rows columns data headers].
  rewrite Hcols.
  repeat split.
  - destruct (reverse && true); [|exact Hrows].
    apply Forall_forall; intros row Hin; apply in_rev in Hin.
    revert row Hin; now apply Forall_forall.
  - destruct (reverse && true); [rewrite length_rev|];
      now destruct (l_results l).
Qed.

End Shape.

(** ** The SQL that reaches the engine *)

Section Grows.

Variable e : Env.
Variable query : string.

Lemma ret_grows {A : Type} (a : A) : grows (only_sql query) (ret a).
Proof. intros w; exists []; split; [reflexivity | constructor]. Qed.

Lemma stop_grows {A : Type} (h : Halt) : grows (only_sql query) (@stop A h).
Proof. intros w; exists []; split; [reflexivity | constructor]. Qed.

Lemma does_grows (ev : Event) : only_sql query ev -> grows (only_sql query) (does ev).
Proof. intros Hev w; exists [ev]; split; [reflexivity | now constructor]. Qed.

Lemma bind_grows {A B : Type} (m : M A) (k : A -> M B) :
  grows (only_sql query) m -> (forall a, grows (only_sql query) (k a)) -> grows (only_sql query) (bind m k).
Proof.
  intros Hm Hk w; unfold bind.
  destruct (Hm w) as (more1 & H1 & HP1).
  destruct (m w) as [[a|h] w1]; cbn [snd] in *.
  - destruct (Hk a w1) as (more2 & H2 & HP2).
    exists (more2 ++ more1); rewrite H2, H1, app_assoc; split; [reflexivity|].
    apply Forall_app; auto.
  - exists more1; auto.
Qed.

Lemma when_grows (b : bool) (m : M unit) : grows (only_sql query) m -> grows (only_sql query) (when b m).
Proof. destruct b; [trivial | intros _; apply ret_grows]. Qed.

Lemma LOG_FATAL_grows {A : Type} (msg : list Item) : grows (only_sql query) (@LOG_FATAL A msg).
Proof. apply bind_grows; [now apply does_grows | intros; apply stop_grows]. Qed.

Lemma LOG_grows (level : Severity) (msg : list Item) : grows (only_sql query) (LOG e level msg).
Proof.
  unfold LOG.
  destruct level; try apply LOG_FATAL_grows;
    (destruct (negb (localtime_ok e)); [apply LOG_FATAL_grows|];
     destruct (negb (strftime_ok e)); [apply LOG_FATAL_grows | now apply does_grows]).
Qed.

Lemma ash_sleep_grows : grows (only_sql query) (ash_sleep e).
Proof.
  apply bind_grows.
  - unfold sleep_ms; destruct (0 <? random_ms e); [|apply ret_grows].
    intros w; eexists [_]; split; [reflexivity | now repeat constructor].
  - intros ms; apply bind_grows; [apply LOG_grows | intros _].
    destruct (ms =? 0); [apply ret_grows|].
    destruct (C.INT_MAX <? sleep_retries e * 2);
      [apply stop_grows | now apply does_grows].
Qed.

Lemma sqlite3_prepare_v2_grows : grows (only_sql query) (sqlite3_prepare_v2 query).
Proof.
  intros w; unfold sqlite3_prepare_v2.
  destruct (prepares w).
  - exists []; split; [reflexivity | constructor].
  - eexists [_]; split; [reflexivity | now repeat constructor].
Qed.

Lemma sqlite3_step_grows : grows (only_sql query) sqlite3_step.
Proof.
  intros w; unfold sqlite3_step.
  destruct (steps w).
  - exists []; split; [reflexivity | constructor].
  - eexists [_]; split; [reflexivity | now repeat constructor].
Qed.

Lemma prepare_switch_grows (max_retries : Z) (again : Z -> M sqlite3_stmt) :
  (forall tries, grows (only_sql query) (again tries)) ->
  forall tries a, grows (only_sql query) (prepare_switch e max_retries again tries a).
Proof.
  intros Hagain tries a; unfold prepare_switch.
  destruct (prepared a); [apply ret_grows|].
  destruct (contention (errcode a)); [|apply LOG_FATAL_grows].
  apply bind_grows; [apply LOG_grows | intros _].
  apply bind_grows; [now apply does_grows | intros _].
  destruct (0 <? tries - 1); [|apply LOG_FATAL_grows].
  apply bind_grows; [apply LOG_grows | intros _].
  apply bind_grows; [apply ash_sleep_grows | intros _].
  apply Hagain.
Qed.

Lemma try_prepare_grows (max_retries : Z) (fuel : nat) :
  forall tries, grows (only_sql query) (try_prepare fuel e query max_retries tries).
Proof.
  induction fuel as [|fuel IH]; intros tries; cbn [try_prepare];
    [apply stop_grows|].
  apply bind_grows; [apply sqlite3_prepare_v2_grows | intros a].
  now apply prepare_switch_grows.
Qed.

Lemma first_tries_grows (max_retries : Z) : grows (only_sql query) (first_tries max_retries).
Proof.
  unfold first_tries.
  destruct (max_retries =? C.INT_MAX); [apply stop_grows | apply ret_grows].
Qed.

Lemma prepare_stmt_grows : grows (only_sql query) (prepare_stmt e query).
Proof.
  apply bind_grows; [apply first_tries_grows | intros tries].
  intros w; apply try_prepare_grows.
Qed.

Lemma exec_switch_grows (max_retries : Z) (columns : nat)
    (again : Locals -> M Locals) :
  (forall l, grows (only_sql query) (again l)) ->
  forall l a, grows (only_sql query) (exec_switch e query max_retries columns again l a).
Proof.
  intros Hagain l a; unfold exec_switch.
  destruct (step_code a =? SQLITE_ROW).
  { destruct (match l_headers l with
              | [] => build_headers (l_ps l) columns
              | _ :: _ => Some (l_headers l)
              end); [|apply stop_grows].
    destruct (l_fetched l =? C.INT_MAX); [apply stop_grows | apply Hagain]. }
  destruct (step_code a =? SQLITE_CONSTRAINT).
  { apply bind_grows; [apply LOG_grows | intros _; apply ret_grows]. }
  destruct (step_code a =? SQLITE_DONE); [apply ret_grows|].
  destruct (contention (step_code a)).
  - apply bind_grows; [apply when_grows, LOG_FATAL_grows | intros _].
    apply bind_grows; [apply ash_sleep_grows | intros _].
    apply bind_grows; [now apply does_grows | intros _].
    apply bind_grows; [apply prepare_stmt_grows | intros ps].
    apply bind_grows; [apply LOG_grows | intros _].
    apply Hagain.
  - apply bind_grows; [now apply does_grows | intros _].
    apply bind_grows; [now apply does_grows | intros _].
    apply LOG_FATAL_grows.
Qed.

Lemma exec_for_grows (limit max_retries : Z) (columns : nat) (fuel : nat) :
  forall l, grows (only_sql query) (exec_for fuel e query limit max_retries columns l).
Proof.
  induction fuel as [|fuel IH]; intros l; cbn [exec_for];
    destruct ((l_fetched l <? limit) || (limit <=? 0));
    try apply ret_grows; try apply stop_grows.
  apply bind_grows; [apply sqlite3_step_grows | intros a].
  now apply exec_switch_grows.
Qed.

Lemma exec_rest_grows (limit : Z) (reverse : bool) (tries : Z) (ps : sqlite3_stmt) :
  grows (only_sql query)
    (l <- (fun w => exec_for (List.length (steps w)) e query limit
                      (db_max_retries e) (sqlite3_column_count ps)
                      (mk_locals ps tries 0 0 [] []) w) ;;
     sqlite3_finalize ;;
     ret (if l_rows l =? 0 then None
          else Some (ResultSet_new (l_headers l)
                       (if reverse && negb (l_rows l =? 0)
                        then rev (l_results l) else l_results l)))).
Proof.
  apply bind_grows; [intros w; apply exec_for_grows | intros l].
  apply bind_grows; [now apply does_grows | intros _; apply ret_grows].
Qed.

(** When [exec] returns, the first thing it did was to hand [query] to
    [sqlite3_prepare_v2], and no other SQL text reached the engine. *)
Lemma exec_prepares_query (limit : Z) (reverse : bool) (w w' : World)
    (rs : option ResultSet) :
  exec e query limit reverse w = (Ret rs, w') ->
  exists more,
    trace w' = more ++ EPrepare query :: trace w /\ Forall (only_sql query) more.
Proof.
  unfold exec; intros H.
  apply bind_returns in H as (tries & w0 & Htries & H).
  assert (w0 = w) as ->.
  { unfold first_tries in Htries.
    destruct (db_max_retries e =? C.INT_MAX); [discriminate|].
    now injection Htries. }
  apply bind_returns in H as (ps & w2 & Hprep & H).
  unfold prepare_stmt in Hprep.
  apply bind_returns in Hprep as (tries' & w0 & Htries' & Hprep).
  assert (w0 = w) as ->.
  { unfold first_tries in Htries'.
    destruct (db_max_retries e =? C.INT_MAX); [discriminate|].
    now injection Htries'. }
  destruct (prepares w) as [|a p] eqn:Hp; cbn [List.length try_prepare] in Hprep;
    [discriminate|].
  apply bind_returns in Hprep as (a' & w1 & Hfirst & Hprep).
  unfold sqlite3_prepare_v2 in Hfirst; rewrite Hp in Hfirst.
  injection Hfirst as <- <-.
  pose proof (prepare_switch_grows (db_max_retries e) _
                (try_prepare_grows (db_max_retries e) (List.length p)) tries' a
                (emit (EPrepare query) (mk_world p (steps w) (rowids w) (trace w))))
    as (more1 & H1 & HP1).
  rewrite Hprep in H1; cbn [snd trace emit] in H1.
  pose proof (exec_rest_grows limit reverse tries ps w2) as (more2 & H2 & HP2).
  rewrite H in H2; cbn [snd] in H2.
  exists (more2 ++ more1); rewrite H2, H1, app_assoc; split; [reflexivity|].
  apply Forall_app; auto.
Qed.

End Grows.

(** ** The delay of ash_sleep *)

(** C7 (amended).  With [fixed] the value of DB_FAIL_TIMEOUT, or 0 when
    that is not set or negative, and [jitter] the value of
    DB_FAIL_RANDOM_TIMEOUT: when [jitter] is positive, [ash_sleep] seeds
    the generator with the exclusive or of the time and the process
    identifier and the delay is [fixed] plus [rand() % jitter], so it lies
    in the interval from [fixed] up to, not including, [fixed + jitter];
    when [jitter] is zero, negative or not set, the delay is [fixed] itself
    and the generator is not seeded.  With a Logger that can stamp its
    lines, that delay is what [ash_sleep] logs and, unless it is zero (and
    when [retries * 2] fits an [int]), sleeps. *)
Theorem backoff_delay_bounds (e : Env) (w : World) (fixed jitter : Z) :
  Z.max 0 (get_int e "DB_FAIL_TIMEOUT" (-1)) = fixed ->
  get_int e "DB_FAIL_RANDOM_TIMEOUT" (-1) = jitter ->
  (getenv e "ASH_CFG_DB_FAIL_TIMEOUT" = None -> fixed = 0)
  /\ (getenv e "ASH_CFG_DB_FAIL_RANDOM_TIMEOUT" = None -> jitter <= 0)
  /\ (0 < jitter ->
      exists ms,
        sleep_ms e w =
          (Ret ms,
           emit (ESrand (C.to_uint (Z.lxor (time_at e (List.length (trace w))) (getpid e)))) w)
        /\ ms = fixed
                + Z.of_N (rand_after e
                            (C.to_uint (Z.lxor (time_at e (List.length (trace w))) (getpid e))))
                  mod jitter
        /\ fixed <= ms < fixed + jitter)
  /\ (jitter <= 0 -> sleep_ms e w = (Ret fixed, w))
  /\ (logger_ok e = true ->
      sleep_retries e * 2 <= C.INT_MAX ->
      exists ms w1,
        sleep_ms e w = (Ret ms, w1)
        /\ ash_sleep e w =
           (Ret tt,
            (if ms =? 0 then fun w2 => w2 else emit (ESleep ms))
              (emit (ELog INFO [Txt "Sleeping "; Num ms; Txt " milliseconds."]) w1))).
Proof.
  intros Hfixed Hjitter.
  assert (Hf : fail_ms e = fixed).
  { unfold fail_ms; rewrite <- Hfixed.
    destruct (get_int e "DB_FAIL_TIMEOUT" (-1) <? 0) eqn:H;
      [apply Z.ltb_lt in H | apply Z.ltb_ge in H]; lia. }
  assert (Hr : random_ms e = Z.max 0 jitter).
  { unfold random_ms; rewrite Hjitter.
    destruct (jitter <? 0) eqn:H; [apply Z.ltb_lt in H | apply Z.ltb_ge in H]; lia. }
  split; [|split; [|split; [|split]]].
  - intros Hunset; rewrite <- Hfixed.
    unfold get_int, get_ash_env; cbn [String.prefix]; cbn.
    now rewrite Hunset.
  - intros Hunset; rewrite <- Hjitter.
    unfold get_int, get_ash_env; cbn [String.prefix]; cbn.
    rewrite Hunset; lia.
  - intros Hj; unfold sleep_ms, sleep_seed; rewrite Hf, Hr.
    replace (Z.max 0 jitter) with jitter by lia.
    replace (0 <? jitter) with true by (symmetry; apply Z.ltb_lt; lia).
    eexists; split; [reflexivity|]; split; [reflexivity|].
    match goal with |- context [?x mod jitter] =>
      pose proof (Z.mod_pos_bound x jitter Hj) end.
    lia.
  - intros Hj; unfold sleep_ms; rewrite Hf, Hr.
    replace (Z.max 0 jitter) with 0 by lia; reflexivity.
  - intros Hlog Hfits; unfold ash_sleep, bind.
    destruct (sleep_ms e w) as [[ms|h] w1] eqn:Hs.
    + exists ms, w1; split; [reflexivity|].
      rewrite (LOG_ok e Hlog) by discriminate.
      replace (C.INT_MAX <? sleep_retries e * 2) with false
        by (symmetry; apply Z.ltb_ge; exact Hfits).
      destruct (ms =? 0); reflexivity.
    + unfold sleep_ms in Hs; destruct (0 <? random_ms e); discriminate.
Qed.

(** ** Limit and reversal on a run without contention *)

Section Limit.

Variable e : Env.

(** The rows the loop still takes from [l] once [k] rows are fetched. *)
Lemma taken_cons {A : Type} (limit k : Z) (x : A) (l : list A) :
  0 <= k ->
  (k <? limit) || (limit <=? 0) = true ->
  (if 0 <? limit then firstn (Z.to_nat (limit - k)) (x :: l) else x :: l)
  = x :: (if 0 <? limit then firstn (Z.to_nat (limit - (k + 1))) l else l).
Proof.
  intros Hk Hcond.
  destruct (0 <? limit) eqn:Hl; [|reflexivity].
  apply Z.ltb_lt in Hl.
  apply orb_prop in Hcond as [H|H];
    [apply Z.ltb_lt in H | apply Z.leb_le in H; lia].
  replace (Z.to_nat (limit - k)) with (S (Z.to_nat (limit - (k + 1)))) by lia.
  reflexivity.
Qed.

Lemma taken_none {A : Type} (limit k : Z) (l : list A) :
  (k <? limit) || (limit <=? 0) = false ->
  (if 0 <? limit then firstn (Z.to_nat (limit - k)) l else l) = [].
Proof.
  intros Hcond; apply orb_false_elim in Hcond as [H1 H2].
  apply Z.ltb_ge in H1; apply Z.leb_gt in H2.
  replace (0 <? limit) with true by (symmetry; apply Z.ltb_lt; lia).
  replace (Z.to_nat (limit - k)) with 0%nat by lia; reflexivity.
Qed.

Lemma headers_built_once (h b : list string) :
  match match h with [] => b | _ :: _ => h end with
  | [] => b
  | _ :: _ => match h with [] => b | _ :: _ => h end
  end
  = match h with [] => b | _ :: _ => h end.
Proof. destruct h; [destruct b|]; reflexivity. Qed.

Lemma push_names_all (ps : sqlite3_stmt) :
  forall (post pre : list string),
    stmt_column_names ps = pre ++ post ->
    push_names ps (seq (List.length pre) (List.length post)) pre
    = Some (stmt_column_names ps).
Proof.
  induction post as [|name post IH]; intros pre Hnames; cbn [List.length seq push_names].
  - now rewrite Hnames, app_nil_r.
  - unfold sqlite3_column_name; rewrite Hnames, nth_error_app2 by lia.
    rewrite Nat.sub_diag; cbn [nth_error].
    specialize (IH (pre ++ [name])).
    rewrite length_app, Nat.add_1_r in IH; rewrite <- Hnames.
    apply IH; now rewrite <- app_assoc.
Qed.

(** With the statement whose columns were counted, every column has a
    name. *)
Lemma build_headers_names (ps : sqlite3_stmt) :
  build_headers ps (sqlite3_column_count ps) = Some (stmt_column_names ps).
Proof. exact (push_names_all ps (stmt_column_names ps) [] eq_refl). Qed.

(** One turn of the loop on a row, when the headers are built or can be. *)
Lemma exec_switch_row (query : string) (max_retries : Z) (columns : nat)
    (again : Locals -> M Locals) (l : Locals) (a : StepAnswer)
    (names : list string) (w : World) :
  step_code a = SQLITE_ROW ->
  build_headers (l_ps l) columns = Some names ->
  l_fetched l <> C.INT_MAX ->
  exec_switch e query max_retries columns again l a w =
  again (mk_locals (l_ps l) (l_tries l) (l_fetched l + 1)
           (C.to_uint (l_rows l + 1))
           match l_headers l with
           | [] => names
           | _ :: _ => l_headers l
           end
           (l_results l ++ [build_row a columns])) w.
Proof.
  intros Ha Hnames Hfit; unfold exec_switch; rewrite Ha, Hnames.
  change (SQLITE_ROW =? SQLITE_ROW) with true; cbv iota.
  apply Z.eqb_neq in Hfit; rewrite Hfit.
  now destruct (l_headers l).
Qed.

(** The loop on a statement that yields rows and then completes: it takes
    the rows up to the limit, in order. *)
Lemma exec_for_rows (query : string) (limit max_retries : Z) (columns : nat)
    (p : list PrepareAnswer) (cells : list (option string))
    (srest : list StepAnswer) (r : list Z) (names : list string) :
  forall (answers : list StepAnswer) (l : Locals) (t : list Event),
    Forall (fun a => step_code a = SQLITE_ROW) answers ->
    build_headers (l_ps l) columns = Some names ->
    0 <= l_fetched l -> l_rows l = l_fetched l ->
    l_fetched l + Z.of_nat (List.length answers) <= C.INT_MAX ->
    exists l' w',
      exec_for (List.length (answers ++ mk_step SQLITE_DONE cells :: srest))
        e query limit max_retries columns l
        (mk_world p (answers ++ mk_step SQLITE_DONE cells :: srest) r t)
      = (Ret l', w')
      /\ (prepares w' = p /\ exists n, trace w' = repeat EStep n ++ t)
      /\ let taken :=
           if 0 <? limit
           then firstn (Z.to_nat (limit - l_fetched l))
                  (map (fun a => build_row a columns) answers)
           else map (fun a => build_row a columns) answers in
         l_results l' = l_results l ++ taken
         /\ l_rows l' = l_rows l + Z.of_nat (List.length taken)
         /\ l_headers l' =
            match taken with
            | [] => l_headers l
            | _ :: _ =>
                match l_headers l with
                | [] => names
                | _ :: _ => l_headers l
                end
            end.
Proof.
  induction answers as [|a answers IH]; intros l t Hrows Hnames Hk Hrk Hfit.
  - cbn [app List.length map].
    replace (if 0 <? limit then firstn (Z.to_nat (limit - l_fetched l)) [] else [])
      with (@nil RowType) by (destruct (0 <? limit); [now rewrite firstn_nil | trivial]).
    cbn [exec_for].
    destruct ((l_fetched l <? limit) || (limit <=? 0));
      exists l; eexists; (split; [reflexivity|]); cbn [List.length];
      rewrite app_nil_r, Z.add_0_r; (split; [split; [reflexivity|] | auto]).
    + now exists 1%nat.
    + now exists 0%nat.
  - inversion Hrows as [|? ? Ha Hrows']; subst.
    cbn [List.length] in Hfit; rewrite Nat2Z.inj_succ in Hfit.
    cbn [app List.length map].
    destruct ((l_fetched l <? limit) || (limit <=? 0)) eqn:Hcond.
    + rewrite exec_for_step by exact Hcond.
      rewrite (exec_switch_row _ _ _ _ _ _ names) by (trivial; lia).
      assert (Hnext : C.to_uint (l_rows l + 1) = l_rows l + 1).
      { unfold C.to_uint, C.INT_MAX in *; rewrite Hrk; apply Z.mod_small; lia. }
      edestruct (IH (mk_locals (l_ps l) (l_tries l) (l_fetched l + 1)
                       (C.to_uint (l_rows l + 1))
                       match l_headers l with
                       | [] => names
                       | _ :: _ => l_headers l
                       end
                       (l_results l ++ [build_row a columns]))
                    (EStep :: t) Hrows')
        as (l' & w' & Hrun & (Hprep & n & Htrace) & Hres & Hcount & Hhead);
        cbn [l_fetched l_rows l_results l_headers l_ps]; try lia; trivial.
      exists l', w'; split; [exact Hrun|].
      split.
      { split; [exact Hprep|]; exists (S n); rewrite Htrace.
        change (EStep :: t) with ([EStep] ++ t).
        now rewrite app_assoc, <- repeat_cons. }
      cbn [l_fetched l_rows l_results l_headers l_ps] in *.
      rewrite (taken_cons limit (l_fetched l) _ _ Hk Hcond).
      cbv zeta; cbn [List.length].
      rewrite Hres, <- app_assoc; cbn [app].
      split; [reflexivity|]; split; [lia|].
      rewrite Hhead.
      match goal with |- context [match ?taken with [] => _ | _ :: _ => _ end] =>
        destruct taken end; [reflexivity | apply headers_built_once].
    + cbn [exec_for]; rewrite Hcond.
      rewrite (taken_none limit (l_fetched l) _ Hcond).
      exists l; eexists; split; [reflexivity|]; cbn [List.length].
      rewrite app_nil_r, Z.add_0_r.
      split; [split; [reflexivity | now exists 0%nat] | auto].
Qed.

(** While the limit is not reached, each row answer is one turn of the
    loop: it adds the row to [results], counts it, and builds the headers
    at the first row. *)
Lemma exec_for_rows_then (query : string) (limit max_retries : Z) (columns : nat)
    (p : list PrepareAnswer) (rest : list StepAnswer) (r : list Z)
    (names : list string) :
  forall (answers : list StepAnswer) (l : Locals) (t : list Event),
    Forall (fun a => step_code a = SQLITE_ROW) answers ->
    build_headers (l_ps l) columns = Some names ->
    0 <= l_fetched l -> l_rows l = l_fetched l ->
    l_fetched l + Z.of_nat (List.length answers) <= C.INT_MAX ->
    limit <= 0 \/ l_fetched l + Z.of_nat (List.length answers) <= limit ->
    exec_for (List.length (answers ++ rest)) e query limit max_retries columns l
      (mk_world p (answers ++ rest) r t)
    = exec_for (List.length rest) e query limit max_retries columns
        (mk_locals (l_ps l) (l_tries l)
           (l_fetched l + Z.of_nat (List.length answers))
           (l_rows l + Z.of_nat (List.length answers))
           match answers with
           | [] => l_headers l
           | _ :: _ =>
               match l_headers l with
               | [] => names
               | _ :: _ => l_headers l
               end
           end
           (l_results l ++ map (fun a => build_row a columns) answers))
        (mk_world p rest r (repeat EStep (List.length answers) ++ t)).
Proof.
  induction answers as [|a answers IH]; intros l t Hrows Hnames Hk Hrk Hfit Hlim.
  - cbn [app List.length map repeat]; rewrite !Z.add_0_r, app_nil_r.
    now destruct l.
  - inversion Hrows as [|? ? Ha Hrows']; subst.
    cbn [List.length] in Hfit, Hlim; rewrite Nat2Z.inj_succ in Hfit, Hlim.
    cbn [app List.length map].
    rewrite exec_for_step.
    2:{ apply orb_true_iff; destruct Hlim as [H|H];
          [right; apply Z.leb_le | left; apply Z.ltb_lt]; lia. }
    rewrite (exec_switch_row _ _ _ _ _ _ names) by (trivial; lia).
    assert (Hnext : C.to_uint (l_rows l + 1) = l_rows l + 1).
    { unfold C.to_uint, C.INT_MAX in *; rewrite Hrk; apply Z.mod_small; lia. }
    rewrite IH; cbn [l_fetched l_rows l_results l_headers l_ps l_tries];
      try lia; trivial.
    rewrite Hnext, <- app_assoc; cbn [app].
    f_equal.
    + f_equal; try lia.
      destruct answers; [reflexivity | apply headers_built_once].
    + f_equal. change (EStep :: t) with ([EStep] ++ t).
      rewrite app_assoc; f_equal.
      change [EStep] with (repeat EStep 1); rewrite <- repeat_app.
      f_equal; lia.
Qed.

Lemma prepare_stmt_at_once (query : string) (p0 : PrepareAnswer)
    (prest : list PrepareAnswer) (ps : sqlite3_stmt) (s : list StepAnswer)
    (r : list Z) (t : list Event) :
  db_max_retries e < C.INT_MAX ->
  prepared p0 = Some ps ->
  prepare_stmt e query (mk_world (p0 :: prest) s r t)
  = (Ret ps, mk_world prest s r (EPrepare query :: t)).
Proof.
  intros Hfit Hps; rewrite (prepare_stmt_unfold e Hfit).
  cbn [prepares List.length try_prepare].
  unfold bind, sqlite3_prepare_v2, prepare_switch; cbn [prepares].
  now rewrite Hps.
Qed.

(** On a statement that compiles at once, yields rows and completes, [exec]
    returns the rows up to the limit, reversed among themselves when
    [reverse] is set, and null when there is none. *)
Lemma exec_without_contention (query : string) (limit : Z) (reverse : bool)
    (w : World) (p0 : PrepareAnswer) (prest : list PrepareAnswer)
    (ps : sqlite3_stmt) (answers : list StepAnswer)
    (cells : list (option string)) (srest : list StepAnswer) :
  db_max_retries e < C.INT_MAX ->
  prepares w = p0 :: prest ->
  prepared p0 = Some ps ->
  steps w = answers ++ mk_step SQLITE_DONE cells :: srest ->
  Forall (fun a => step_code a = SQLITE_ROW) answers ->
  Z.of_nat (List.length answers) <= C.INT_MAX ->
  fst (exec e query limit reverse w) =
  Ret match up_to limit (map (fun a => build_row a (sqlite3_column_count ps)) answers) with
      | [] => None
      | collected =>
          Some (ResultSet_new (stmt_column_names ps)
                  (if reverse then rev collected else collected))
      end.
Proof.
  intros Hfit Hp Hps Hs Hrows Hlen.
  unfold exec.
  unfold bind at 1; rewrite (first_tries_ok e Hfit).
  destruct w as [p s r t]; cbn [prepares steps rowids trace] in *; subst p s.
  unfold bind at 1; rewrite (prepare_stmt_at_once query p0 prest ps _ r t Hfit Hps).
  unfold bind at 1; cbn [steps].
  destruct (exec_for_rows query limit (db_max_retries e) (sqlite3_column_count ps)
              prest cells srest r (stmt_column_names ps) answers
              (mk_locals ps (db_max_retries e + 1) 0 0 [] [])
              (EPrepare query :: t) Hrows (build_headers_names ps)
              ltac:(cbn; lia) eq_refl ltac:(cbn; lia))
    as (l' & w' & -> & _ & Hres & Hcount & Hhead).
  cbn [l_fetched l_rows l_results l_headers l_ps app] in *.
  rewrite Z.sub_0_r in *.
  fold (up_to limit (map (fun a => build_row a (sqlite3_column_count ps)) answers)) in *.
  unfold bind, sqlite3_finalize, does, ret; cbn [fst].
  rewrite Hres, Hcount, Hhead.
  destruct (up_to limit _) as [|row rows'] eqn:Hup; [reflexivity|].
  cbn [List.length]; rewrite Nat2Z.inj_succ.
  replace (0 + Z.succ (Z.of_nat (List.length rows')) =? 0) with false
    by (symmetry; apply Z.eqb_neq; lia).
  now rewrite andb_true_r.
Qed.

End Limit.

(** ** Contention while a statement is stepped *)

Section Interrupted.

Variable e : Env.
Hypothesis logger_works : logger_ok e = true.
Hypothesis sleep_fits : sleep_retries e * 2 <= C.INT_MAX.
Hypothesis tries_fit : db_max_retries e < C.INT_MAX.

Lemma headers_after_app (names h : list string) (c1 c2 : list RowType) :
  headers_after names (headers_after names h c1) c2
  = headers_after names h (c1 ++ c2).
Proof. destruct c1, c2, h, names; reflexivity. Qed.

Lemma attempts_steps (n : nat) (t : list Event) :
  attempts (repeat EStep n ++ t) = attempts t.
Proof. induction n as [|n IH]; [reflexivity | exact IH]. Qed.

Lemma backoffs_steps (n : nat) (t : list Event) :
  backoffs (repeat EStep n ++ t) = backoffs t.
Proof. induction n as [|n IH]; [reflexivity | exact IH]. Qed.

(** A contention answer of [sqlite3_step], while [tries] is positive and
    the statement compiles again, at once or after contended compilations
    that [prepare_stmt] retries: one backoff and one compilation, and one
    more of each for every contended compilation; one try less; and the
    loop starts again with [fetched] and [rows] at zero and with the
    headers and the rows collected so far. *)
Lemma exec_switch_contended (query : string) (columns : nat)
    (again : Locals -> M Locals) (l : Locals) (a : StepAnswer)
    (c : list PrepareAnswer * PrepareAnswer) (ps : sqlite3_stmt)
    (p : list PrepareAnswer) (s : list StepAnswer) (r : list Z) (t : list Event) :
  contention (step_code a) = true ->
  gives (db_max_retries e) ps c ->
  0 < l_tries l ->
  exists t',
    exec_switch e query (db_max_retries e) columns again l a
      (mk_world ((fst c ++ [snd c]) ++ p) s r t)
    = again (mk_locals ps (l_tries l - 1) 0 0 (l_headers l) (l_results l))
        (mk_world p s r t')
    /\ backoffs t' = (backoffs t + 1 + List.length (fst c))%nat
    /\ attempts t' = (attempts t + 1 + List.length (fst c))%nat.
Proof.
  intros Ha (Hfails & Hfew & Hps) Htries.
  apply (contention_codes) in Ha as Hcodes; destruct Hcodes as (Hc1 & Hc2 & Hc3).
  unfold exec_switch; rewrite Hc1, Hc2, Hc3, Ha.
  replace (l_tries l <=? 0) with false by (symmetry; apply Z.leb_gt; lia).
  unfold bind at 1; cbn [when ret].
  unfold bind at 1.
  destruct (ash_sleep_ok e logger_works sleep_fits ((fst c ++ [snd c]) ++ p) s r t)
    as (t1 & -> & Hat1 & Hbk1).
  unfold bind at 1; cbn [sqlite3_finalize does]; unfold emit;
    cbn [prepares steps rowids trace].
  unfold bind at 1.
  destruct (prepare_stmt_succeeds e logger_works sleep_fits tries_fit query
              (mk_world ((fst c ++ [snd c]) ++ p) s r (EFinalize :: t1))
              (fst c) (snd c) p ps
              ltac:(cbn [prepares]; now rewrite <- app_assoc) Hfails Hfew Hps)
    as ([p2 s2 r2 t2] & -> & Hp2 & Hs2 & Hr2 & Hat2 & Hbk2).
  cbn [prepares steps rowids trace] in *; subst p2 s2 r2.
  unfold bind at 1; rewrite (LOG_ok e logger_works) by discriminate.
  unfold emit; cbn [prepares steps rowids trace].
  eexists; split; [reflexivity|].
  unfold attempts, backoffs in *;
    cbn [filter is_prepare is_backoff List.length] in *.
  split; lia.
Qed.

Lemma failures_cons (c : list PrepareAnswer * PrepareAnswer)
    (cs : list (list PrepareAnswer * PrepareAnswer)) :
  failures (c :: cs) = (List.length (fst c) + failures cs)%nat.
Proof. unfold failures; cbn [flat_map]; now rewrite length_app. Qed.

(** An interrupted statement: each run of rows is read, and at the
    contention answer that ends it [exec] backs off, compiles the
    statement again and starts over, keeping the rows. *)
Lemma exec_for_interrupted (query : string) (limit : Z) (ps : sqlite3_stmt)
    (prest : list PrepareAnswer) (srest : list StepAnswer) (r : list Z) :
  forall (runs : list (list StepAnswer * StepAnswer))
         (again : list (list PrepareAnswer * PrepareAnswer))
         (l : Locals) (t : list Event),
    Forall (interruption limit) runs ->
    Forall (gives (db_max_retries e) ps) again ->
    List.length again = List.length runs ->
    l_ps l = ps -> l_fetched l = 0 -> l_rows l = 0 ->
    Z.of_nat (List.length runs) <= l_tries l ->
    exists t',
      exec_for (List.length (interrupted runs ++ srest)) e query limit
        (db_max_retries e) (sqlite3_column_count ps) l
        (mk_world (compiled_after again ++ prest) (interrupted runs ++ srest) r t)
      = exec_for (List.length srest) e query limit (db_max_retries e)
          (sqlite3_column_count ps)
          (mk_locals ps (l_tries l - Z.of_nat (List.length runs)) 0 0
             (headers_after (stmt_column_names ps) (l_headers l)
                (rows_before (sqlite3_column_count ps) runs))
             (l_results l ++ rows_before (sqlite3_column_count ps) runs))
          (mk_world prest srest r t')
      /\ backoffs t' = (backoffs t + List.length runs + failures again)%nat
      /\ attempts t' = (attempts t + List.length runs + failures again)%nat.
Proof.
  induction runs as [|[answers busy] runs IH];
    intros again l t Hruns Hagain Hlen Hl Hf Hr Htries.
  - destruct again; [|discriminate].
    exists t; cbn [interrupted rows_before compiled_after flat_map app List.length
                     headers_after failures].
    rewrite Z.sub_0_r, app_nil_r, !Nat.add_0_r.
    destruct l; cbn in *; subst; auto.
  - destruct again as [|c again]; [discriminate|].
    inversion Hruns as [|? ? [(Hrows & Hfit & Hlim) Hbusy] Hruns']; subst.
    inversion Hagain as [|? ? Hc Hagain']; subst.
    cbn [fst snd] in *.
    cbn [List.length] in Hlen, Htries; rewrite Nat2Z.inj_succ in Htries.
    injection Hlen as Hlen.
    cbn [interrupted rows_before compiled_after flat_map fst snd].
    fold (interrupted runs); fold (rows_before (sqlite3_column_count (l_ps l)) runs);
      fold (compiled_after again).
    rewrite <- (app_assoc answers); cbn [app].
    rewrite <- (app_assoc answers).
    rewrite (exec_for_rows_then e query limit (db_max_retries e)
               (sqlite3_column_count (l_ps l)) _
               (busy :: interrupted runs ++ srest) r
               (stmt_column_names (l_ps l)) answers l t Hrows
               (build_headers_names (l_ps l)));
      [|lia|lia|lia|lia].
    cbn [List.length].
    rewrite (exec_for_step e).
    2:{ cbn [l_fetched]; apply orb_true_iff; destruct Hlim as [H|H];
          [right; apply Z.leb_le | left; apply Z.ltb_lt]; lia. }
    rewrite <- (app_assoc (fst c ++ [snd c])).
    match goal with
    | |- context [exec_switch e query (db_max_retries e) ?cl ?k ?l1 busy
                    (mk_world ((fst c ++ [snd c]) ++ ?p) ?s r ?t0)] =>
        destruct (exec_switch_contended query cl k l1 busy c (l_ps l) p s r t0
                    Hbusy Hc ltac:(cbn [l_tries]; lia))
          as (t1 & -> & Hbk1 & Hat1)
    end.
    cbn [l_tries l_headers l_results].
    match goal with
    | |- context [exec_for _ e query limit _ _ ?l2 (mk_world _ _ r t1)] =>
        destruct (IH again l2 t1 Hruns' Hagain' Hlen eq_refl eq_refl eq_refl
                    ltac:(cbn [l_tries]; lia))
          as (t' & Hrun & Hbk' & Hat')
    end.
    cbn [l_tries l_headers l_results l_ps] in Hrun.
    exists t'; split.
    + rewrite Hrun; f_equal; f_equal.
      * lia.
      * rewrite <- headers_after_app; f_equal.
        unfold rows_of; now destruct answers.
      * now rewrite <- app_assoc.
    + cbn [List.length]; rewrite failures_cons, Hbk', Hat', Hbk1, Hat1.
      change (EStep :: repeat EStep (List.length answers) ++ t)
        with (repeat EStep (S (List.length answers)) ++ t).
      rewrite attempts_steps, backoffs_steps; split; lia.
Qed.

(** The state of [exec] when the first compilation has succeeded and the
    runs of an interrupted statement are behind. *)
Lemma exec_after_interruptions (query : string) (limit : Z) (reverse : bool)
    (w : World) (runs : list (list StepAnswer * StepAnswer))
    (srest : list StepAnswer) (first : list PrepareAnswer * PrepareAnswer)
    (again : list (list PrepareAnswer * PrepareAnswer))
    (prest : list PrepareAnswer) (ps : sqlite3_stmt) :
  steps w = interrupted runs ++ srest ->
  prepares w = compiled_after (first :: again) ++ prest ->
  Forall (gives (db_max_retries e) ps) (first :: again) ->
  List.length again = List.length runs ->
  Forall (interruption limit) runs ->
  Z.of_nat (List.length runs) <= db_max_retries e + 1 ->
  exists t',
    exec e query limit reverse w =
    (l <- exec_for (List.length srest) e query limit (db_max_retries e)
            (sqlite3_column_count ps)
            (mk_locals ps (db_max_retries e + 1 - Z.of_nat (List.length runs)) 0 0
               (headers_after (stmt_column_names ps) []
                  (rows_before (sqlite3_column_count ps) runs))
               (rows_before (sqlite3_column_count ps) runs)) ;;
     sqlite3_finalize ;;
     ret (if l_rows l =? 0 then None
          else Some (ResultSet_new (l_headers l)
                       (if reverse && negb (l_rows l =? 0)
                        then rev (l_results l) else l_results l))))
      (mk_world prest srest (rowids w) t')
    /\ backoffs t' = (backoffs (trace w) + List.length runs + failures (first :: again))%nat
    /\ attempts t' = (attempts (trace w) + List.length runs + 1
                      + failures (first :: again))%nat.
Proof.
  intros Hs Hp Hgives Hlen Hruns Hk.
  inversion Hgives as [|? ? (Hfails & Hfew & Hps) Hagain]; subst.
  unfold exec.
  unfold bind at 1; rewrite (first_tries_ok e tries_fit).
  unfold bind at 1.
  destruct (prepare_stmt_succeeds e logger_works sleep_fits tries_fit query w
              (fst first) (snd first) (compiled_after again ++ prest) ps
              ltac:(rewrite Hp; cbn [compiled_after flat_map];
                    now rewrite <- !app_assoc) Hfails Hfew Hps)
    as ([p1 s1 r1 t1] & -> & Hp1 & Hs1 & Hr1 & Hat1 & Hbk1).
  cbn [prepares steps rowids trace] in *; subst p1 s1 r1.
  unfold bind at 1; cbn [steps]; rewrite Hs.
  destruct (exec_for_interrupted query limit ps prest srest (rowids w) runs again
              (mk_locals ps (db_max_retries e + 1) 0 0 [] []) t1
              Hruns Hagain Hlen eq_refl eq_refl eq_refl Hk)
    as (t2 & -> & Hbk2 & Hat2).
  cbn [l_tries l_headers l_results app].
  exists t2; split; [reflexivity|].
  rewrite failures_cons, Hbk2, Hat2, Hat1, Hbk1; split; lia.
Qed.

(** [exec] on an interrupted statement that compiles again at each
    contention and then runs to its end: it returns, after one backoff for
    each contention, as long as there are no more than [max_retries + 1]
    contention answers of [sqlite3_step].  The rows read before a
    contention stay in the result, ahead of those of the last run; the
    result is null when the last run has no row. *)
Lemma exec_interrupted (query : string) (limit : Z) (reverse : bool)
    (w : World) (runs : list (list StepAnswer * StepAnswer))
    (answers : list StepAnswer) (cells : list (option string))
    (srest : list StepAnswer) (first : list PrepareAnswer * PrepareAnswer)
    (again : list (list PrepareAnswer * PrepareAnswer))
    (prest : list PrepareAnswer) (ps : sqlite3_stmt) :
  steps w = interrupted runs ++ answers ++ mk_step SQLITE_DONE cells :: srest ->
  prepares w = compiled_after (first :: again) ++ prest ->
  Forall (gives (db_max_retries e) ps) (first :: again) ->
  List.length again = List.length runs ->
  Forall (interruption limit) runs ->
  Forall (fun a => step_code a = SQLITE_ROW) answers ->
  Z.of_nat (List.length answers) <= C.INT_MAX ->
  Z.of_nat (List.length runs) <= db_max_retries e + 1 ->
  exists w',
    exec e query limit reverse w =
      (Ret match up_to limit (rows_of (sqlite3_column_count ps) answers) with
           | [] => None
           | last =>
               let collected := rows_before (sqlite3_column_count ps) runs ++ last in
               Some (ResultSet_new (stmt_column_names ps)
                       (if reverse then rev collected else collected))
           end, w')
    /\ prepares w' = prest
    /\ backoffs (trace w') =
       (backoffs (trace w) + List.length runs + failures (first :: again))%nat
    /\ attempts (trace w') =
       (attempts (trace w) + List.length runs + 1 + failures (first :: again))%nat.
Proof.
  intros Hs Hp Hgives Hlen Hruns Hrows Hfit Hk.
  destruct (exec_after_interruptions query limit reverse w runs
              (answers ++ mk_step SQLITE_DONE cells :: srest) first again prest ps
              Hs Hp Hgives Hlen Hruns Hk)
    as (t2 & -> & Hbk2 & Hat2).
  unfold bind at 1.
  edestruct (exec_for_rows e query limit (db_max_retries e) (sqlite3_column_count ps)
               prest cells srest (rowids w) (stmt_column_names ps) answers)
    as (l' & w' & -> & (Hprep & n & Htrace) & Hres & Hcount & Hhead);
    [exact Hrows | apply build_headers_names | | | |];
    cbn [l_fetched l_rows l_results l_headers l_ps]; try lia; try reflexivity.
  cbn [l_fetched l_rows l_results l_headers l_ps] in *.
  rewrite Z.sub_0_r in *.
  fold (rows_of (sqlite3_column_count ps) answers) in *.
  fold (up_to limit (rows_of (sqlite3_column_count ps) answers)) in *.
  unfold bind, sqlite3_finalize, does, ret.
  rewrite Hres, Hcount, Hhead.
  eexists; split.
  - destruct (up_to limit _) as [|row rows'] eqn:Hup; [reflexivity|].
    cbn [List.length]; rewrite Nat2Z.inj_succ.
    replace (0 + Z.succ (Z.of_nat (List.length rows')) =? 0) with false
      by (symmetry; apply Z.eqb_neq; lia).
    rewrite andb_true_r; cbv zeta.
    do 3 f_equal.
    destruct (rows_before (sqlite3_column_count ps) runs); cbn [headers_after];
      [reflexivity | destruct (stmt_column_names ps); reflexivity].
  - cbn [prepares trace emit]; rewrite Htrace.
    split; [exact Hprep|].
    change (backoffs (EFinalize :: repeat EStep n ++ t2))
      with (backoffs (repeat EStep n ++ t2)).
    change (attempts (EFinalize :: repeat EStep n ++ t2))
      with (attempts (repeat EStep n ++ t2)).
    rewrite attempts_steps, backoffs_steps, Hbk2, Hat2.
    split; reflexivity.
Qed.

(** The contention answer after [max_retries + 1] interruptions ends the
    process, whatever rows were read before it. *)
Lemma exec_interrupted_gives_up (query : string) (limit : Z) (reverse : bool)
    (w : World) (runs : list (list StepAnswer * StepAnswer))
    (answers : list StepAnswer) (busy : StepAnswer)
    (srest : list StepAnswer) (first : list PrepareAnswer * PrepareAnswer)
    (again : list (list PrepareAnswer * PrepareAnswer))
    (prest : list PrepareAnswer) (ps : sqlite3_stmt) :
  steps w = interrupted runs ++ answers ++ busy :: srest ->
  prepares w = compiled_after (first :: again) ++ prest ->
  Forall (gives (db_max_retries e) ps) (first :: again) ->
  List.length again = List.length runs ->
  Forall (interruption limit) runs ->
  interruption limit (answers, busy) ->
  Z.of_nat (List.length runs) = db_max_retries e + 1 ->
  exists w',
    exec e query limit reverse w = (Stop Exited, w')
    /\ prepares w' = prest
    /\ backoffs (trace w') =
       (backoffs (trace w) + List.length runs + failures (first :: again))%nat
    /\ attempts (trace w') =
       (attempts (trace w) + List.length runs + 1 + failures (first :: again))%nat.
Proof.
  intros Hs Hp Hgives Hlen Hruns [(Hrows & Hfit & Hlim) Hbusy] Hk.
  cbn [fst snd] in *.
  destruct (exec_after_interruptions query limit reverse w runs
              (answers ++ busy :: srest) first again prest ps
              Hs Hp Hgives Hlen Hruns ltac:(lia))
    as (t2 & -> & Hbk2 & Hat2).
  unfold bind at 1.
  match goal with
  | |- context [exec_for _ e query limit _ _ ?l0 _] =>
      rewrite (exec_for_rows_then e query limit (db_max_retries e)
                 (sqlite3_column_count ps) prest (busy :: srest) (rowids w)
                 (stmt_column_names ps) answers l0 t2 Hrows (build_headers_names ps));
        cbn [l_fetched l_rows]; [|lia|reflexivity|lia|lia]
  end.
  cbn [List.length].
  rewrite (exec_for_step e).
  2:{ cbn [l_fetched]; apply orb_true_iff; destruct Hlim as [H|H];
        [right; apply Z.leb_le | left; apply Z.ltb_lt]; lia. }
  apply contention_codes in Hbusy as Hcodes; destruct Hcodes as (Hc1 & Hc2 & Hc3).
  unfold exec_switch; rewrite Hc1, Hc2, Hc3, Hbusy; cbn [l_tries].
  replace (db_max_retries e + 1 - Z.of_nat (List.length runs) <=? 0) with true
    by (symmetry; apply Z.leb_le; lia).
  unfold bind, when, LOG_FATAL, bind, does, stop, emit;
    cbn [prepares steps rowids trace].
  eexists; split; [reflexivity|].
  cbn [prepares trace]; split; [reflexivity|].
  change (backoffs (ELog FATAL ?m :: EStep :: ?x)) with (backoffs x).
  unfold attempts at 1, backoffs at 1;
    cbn [filter is_prepare is_backoff].
  fold (backoffs (repeat EStep (List.length answers) ++ t2)).
  fold (attempts (repeat EStep (List.length answers) ++ t2)).
  rewrite attempts_steps, backoffs_steps, Hbk2, Hat2.
  split; reflexivity.
Qed.

(** C10 (amended).  While the Logger can stamp its lines, and [retries * 2]
    in [ash_sleep] and [max_retries + 1] fit an [int]: in [prepare_stmt]
    and in [exec] alike, a DB_MAX_RETRIES that is zero or negative counts
    as 5 and a positive one counts as it is, so [max_retries] is at least
    1 (it can be less than 5); [prepare_stmt] gives up after
    [max_retries + 1] attempts, the first one and [max_retries] retries,
    and returns when a compilation succeeds within them; [exec] retries,
    and returns, through any number of contention answers of
    [sqlite3_step] up to [max_retries], wherever among the rows they come,
    when each compilation of the statement succeeds within
    [max_retries] retries. *)
Theorem max_retries_is_five_or_the_positive_setting
    (query : string) (limit : Z) (reverse : bool) (w : World) :
  (db_max_retries e =
     (if get_int e "DB_MAX_RETRIES" (-1) <=? 0 then 5
      else get_int e "DB_MAX_RETRIES" (-1))
   /\ 1 <= db_max_retries e)
  /\ (forall fails rest,
        prepares w = fails ++ rest ->
        Forall (fun a => contended a = true) fails ->
        Z.of_nat (List.length fails) = db_max_retries e + 1 ->
        exists w',
          prepare_stmt e query w = (Stop Exited, w')
          /\ Z.of_nat (attempts (trace w')) =
             Z.of_nat (attempts (trace w)) + db_max_retries e + 1)
  /\ (forall fails a rest ps,
        prepares w = fails ++ a :: rest ->
        Forall (fun a => contended a = true) fails ->
        Z.of_nat (List.length fails) <= db_max_retries e ->
        prepared a = Some ps ->
        exists w',
          prepare_stmt e query w = (Ret ps, w')
          /\ attempts (trace w') = (attempts (trace w) + List.length fails + 1)%nat)
  /\ (forall runs answers cells srest first again prest ps,
        steps w = interrupted runs ++ answers ++ mk_step SQLITE_DONE cells :: srest ->
        prepares w = compiled_after (first :: again) ++ prest ->
        Forall (gives (db_max_retries e) ps) (first :: again) ->
        List.length again = List.length runs ->
        Forall (interruption limit) runs ->
        Forall (fun a => step_code a = SQLITE_ROW) answers ->
        Z.of_nat (List.length answers) <= C.INT_MAX ->
        Z.of_nat (List.length runs) <= db_max_retries e ->
        exists rs w',
          exec e query limit reverse w = (Ret rs, w')
          /\ backoffs (trace w') =
             (backoffs (trace w) + List.length runs + failures (first :: again))%nat
          /\ attempts (trace w') =
             (attempts (trace w) + List.length runs + 1
              + failures (first :: again))%nat).
Proof.
  split; [exact (db_max_retries_value e)|].
  split; [|split].
  - intros fails rest Hp Hall Hlen.
    destruct (prepare_stmt_exhausted e logger_works sleep_fits tries_fit query w
                fails rest Hp Hall Hlen)
      as (w' & H1 & _ & H2 & _); eauto.
  - intros fails a rest ps Hp Hall Hlen Ha.
    destruct (prepare_stmt_succeeds e logger_works sleep_fits tries_fit query w
                fails a rest ps Hp Hall Hlen Ha)
      as (w' & H1 & _ & _ & _ & H3 & _); eauto.
  - intros runs answers cells srest first again prest ps
      Hs Hp Hgives Hlen Hruns Hrows Hfit Hk.
    destruct (exec_interrupted query limit reverse w runs answers cells srest
                first again prest ps Hs Hp Hgives Hlen Hruns Hrows Hfit ltac:(lia))
      as (w' & H1 & _ & H2 & H3); eauto.
Qed.

End Interrupted.

(** ** Database::insert *)

(** C9.  [insert] of a null pointer returns 0 and does nothing: no call
    reaches the engine and the world is as before.  [insert] of an object
    runs [exec] on the INSERT statement rendered by [get_sql], with no
    limit and no reversal, and, when [exec] returns, returns the answer of
    [sqlite3_last_insert_rowid]; the rendered INSERT is the first and the
    only SQL text handed to the engine; and [insert] returns only when
    [exec] returned.  On a store that compiles the statement and completes
    it (and when [max_retries + 1] fits an [int]), the calls are, in this
    order: the compilation of
    [INSERT INTO name (columns) VALUES (values); ] with the columns and
    the values of the object separated by a comma and a space, one step,
    the finalization, and the question for the row identifier, whose
    answer is returned. *)
Theorem insert_null_or_last_rowid (e : Env) (w : World) :
  insert e None w = (Ret 0, w)
  /\ (forall o rs w1 r rest,
        exec e (get_sql o) 0 false w = (Ret rs, w1) ->
        rowids w1 = r :: rest ->
        insert e (Some o) w =
          (Ret r, emit ELastRowid (mk_world (prepares w1) (steps w1) rest (trace w1)))
        /\ exists more,
             trace w1 = more ++ EPrepare (get_sql o) :: trace w
             /\ Forall (only_sql (get_sql o)) more)
  /\ (forall o r w',
        insert e (Some o) w = (Ret r, w') ->
        exists rs w1 rest,
          exec e (get_sql o) 0 false w = (Ret rs, w1) /\ rowids w1 = r :: rest)
  /\ (forall o a prest ps cells srest r rest,
        db_max_retries e < C.INT_MAX ->
        prepares w = a :: prest ->
        prepared a = Some ps ->
        steps w = mk_step SQLITE_DONE cells :: srest ->
        rowids w = r :: rest ->
        insert e (Some o) w =
          (Ret r,
           mk_world prest srest rest
             (ELastRowid :: EFinalize :: EStep
              :: EPrepare ("INSERT INTO " ++ get_name o ++ " ("
                           ++ String.concat ", " (map fst (values o))
                           ++ ") VALUES ("
                           ++ String.concat ", " (map snd (values o))
                           ++ "); ")%string
              :: trace w))).
Proof.
  split; [reflexivity|]; split; [|split].
  - intros o rs w1 r rest Hexec Hrow; split.
    + unfold insert, bind; rewrite Hexec.
      unfold sqlite3_last_insert_rowid; now rewrite Hrow.
    + eapply exec_prepares_query; eassumption.
  - intros o r w' H; unfold insert in H.
    apply bind_returns in H as (rs & w1 & Hexec & H).
    unfold sqlite3_last_insert_rowid in H.
    destruct (rowids w1) as [|r0 rest] eqn:Hrow; [discriminate|].
    injection H as <- _; eauto.
  - intros o a prest ps cells srest r rest Hfit Hp Hps Hs Hr.
    destruct w as [p s ids t]; cbn [prepares steps rowids trace] in *; subst p s ids.
    assert (Hexec : exec e (get_sql o) 0 false
                      (mk_world (a :: prest) (mk_step SQLITE_DONE cells :: srest)
                         (r :: rest) t)
                    = (Ret None,
                       mk_world prest srest (r :: rest)
                         (EFinalize :: EStep :: EPrepare (get_sql o) :: t))).
    { unfold exec.
      unfold bind at 1; rewrite (first_tries_ok e Hfit).
      unfold bind at 1; rewrite (prepare_stmt_at_once e _ a prest ps _ _ _ Hfit Hps).
      unfold bind at 1; cbn [steps List.length].
      rewrite (exec_for_step e) by reflexivity.
      unfold exec_switch; cbn [step_code].
      change (SQLITE_DONE =? SQLITE_ROW) with false.
      change (SQLITE_DONE =? SQLITE_CONSTRAINT) with false.
      change (SQLITE_DONE =? SQLITE_DONE) with true.
      reflexivity. }
    unfold insert, bind; rewrite Hexec; reflexivity.
Qed.


(** * Runs on sample inputs *)

Section Samples.

Import Sample.
Local Open Scope string_scope.

(** C1 (the code departs from the specification).  A statement yields the
    row 1, then the store is busy; [exec] sleeps, compiles the statement
    again and steps it from its first row, with [fetched] and [rows] set
    to zero but with [results] as it was.  The row fetched before the
    contention is not discarded: it is in the ResultSet that [exec]
    returns, ahead of the five rows of the second run, so it is there
    twice. *)
Theorem rows_fetched_before_contention_are_returned :
  fst (exec (env_of []) "select id from commands" 0 false busy_after_first_row)
  = Ret (Some (ResultSet_new ["id"] [["1"]; ["1"]; ["2"]; ["3"]; ["4"]; ["5"]])).
Proof. vm_compute; reflexivity. Qed.

(** C4 (the code departs from the specification, by the defect of C1).
    With [limit = 2] and a contention after the first row, the second run
    collects two rows more on top of the one kept: three rows are
    returned, in reversed order when [reverse] is set.  Without contention
    the same query returns its first two rows, reversed among themselves
    when [reverse] is set. *)
Theorem limit_is_exceeded_after_contention :
  fst (exec (env_of []) "select id from commands" 2 false busy_after_first_row)
  = Ret (Some (ResultSet_new ["id"] [["1"]; ["1"]; ["2"]]))
  /\ fst (exec (env_of []) "select id from commands" 2 true busy_after_first_row)
     = Ret (Some (ResultSet_new ["id"] [["2"]; ["1"]; ["1"]]))
  /\ fst (exec (env_of []) "select id from commands" 2 false
            (world [compiled ["id"]] five_rows))
     = Ret (Some (ResultSet_new ["id"] [["1"]; ["2"]]))
  /\ fst (exec (env_of []) "select id from commands" 2 true
            (world [compiled ["id"]] five_rows))
     = Ret (Some (ResultSet_new ["id"] [["2"]; ["1"]])).
Proof. repeat split; vm_compute; reflexivity. Qed.

(** C2 as the specification states it does not hold.  The registry has one table and the
    store answers the counting query with 2: the constructor hands the
    table-creation statements to [sqlite3_exec] all the same. *)
Lemma schema_drift_runs_the_bootstrap :
  exists rs w1,
    exec (env_of []) (count_query sessions) 0 false
      (opened (env_of []) "history.db" drifted) = (Ret rs, w1)
    /\ defined_tables_of rs w1 = (Ret 2, w1)
    /\ Z.of_nat (List.length (table_names sessions)) < 2
    /\ In (EExec (get_create_tables sessions))
          (trace (snd (Database_new (env_of []) sessions "history.db" drifted))).
Proof.
  do 2 eexists; split; [vm_compute; reflexivity|].
  split; [vm_compute; reflexivity|].
  split; [vm_compute; reflexivity|].
  vm_compute; auto.
Qed.

(** C3 as the specification states it does not hold.  A constraint violation after one row
    returns a ResultSet with that row, which a query without rows does
    not. *)
Lemma constraint_after_a_row_returns_the_row :
  fst (exec (env_of []) "insert" 0 false
         (world [compiled ["id"]] [row ["1"]; answer SQLITE_CONSTRAINT]))
  = Ret (Some (ResultSet_new ["id"] [["1"]]))
  /\ fst (exec (env_of []) "insert" 0 false
            (world [compiled ["id"]] [answer SQLITE_DONE]))
     = Ret None.
Proof. split; vm_compute; reflexivity. Qed.


(** C7 as the specification states it does not hold.  With a fixed delay of 10 and no jitter
    the delay is 10, which is not below 10 + 0, and the generator is not
    seeded. *)
Lemma delay_without_jitter_is_outside_the_interval :
  let e := env_of [("ASH_CFG_DB_FAIL_TIMEOUT", "10");
                   ("ASH_CFG_DB_FAIL_RANDOM_TIMEOUT", "0")] in
  get_int e "DB_FAIL_TIMEOUT" (-1) = 10
  /\ get_int e "DB_FAIL_RANDOM_TIMEOUT" (-1) = 0
  /\ sleep_ms e (world [] []) = (Ret 10, world [] [])
  /\ ~ (10 <= 10 < 10 + 0).
Proof.
  repeat split; try (vm_compute; reflexivity).
  intros [_ H]; revert H; vm_compute; discriminate.
Qed.

(** C10 as the specification states it does not hold.  With DB_MAX_RETRIES set to 1,
    [prepare_stmt] gives up at the second contended compilation: there was
    one retry, not five, and the third answer of the engine, a success,
    was never asked for. *)
Lemma one_retry_is_all_there_is :
  let e := env_of [("ASH_CFG_DB_MAX_RETRIES", "1")] in
  let r := prepare_stmt e "select 1" busy_twice in
  db_max_retries e = 1
  /\ fst r = Stop Exited
  /\ attempts (trace (snd r)) = 2%nat
  /\ prepares (snd r) = [compiled ["id"]].
Proof. repeat split; vm_compute; reflexivity. Qed.

(** The same setting in [exec]: two contention answers of [sqlite3_step]
    are retried and the third ends the process, with a message that says
    it gave up after 1 failure. *)
Example exec_retries_once_more_than_max_retries :
  let e := env_of [("ASH_CFG_DB_MAX_RETRIES", "1")] in
  let p := [compiled ["id"]; compiled ["id"]; compiled ["id"]; compiled ["id"]] in
  fst (exec e "select 1" 0 false
         (world p [answer SQLITE_BUSY; answer SQLITE_BUSY; answer SQLITE_DONE]))
  = Ret None
  /\ fst (exec e "select 1" 0 false
            (world p [answer SQLITE_BUSY; answer SQLITE_BUSY; answer SQLITE_BUSY;
                      answer SQLITE_DONE]))
     = Stop Exited.
Proof. split; vm_compute; reflexivity. Qed.

(** ** The theorems at sample inputs *)

Lemma schema_drift_witness :
  let e := env_of [] in
  let w1 := snd (exec e (count_query sessions) 0 false (opened e "history.db" drifted)) in
  exists w2 report,
    Database_new e sessions "history.db" drifted = (Ret tt, w2)
    /\ trace w2 =
       ELog WARNING [Txt "Expected "; Num 1;
                     Txt " tables to be defined, found "; Num 2; Txt " instead."]
       :: (report ++ EExec (get_create_tables sessions) :: trace w1)%list
    /\ (report = [] \/ exists msg, report = [ECerr msg]).
Proof.
  intros e w1.
  apply (schema_drift_bootstraps_then_warns e eq_refl sessions "history.db"
           drifted w1 (Some (ResultSet_new ["table_count"] [["2"]])) 2).
  - left; reflexivity.
  - reflexivity.
  - vm_compute; reflexivity.
  - vm_compute; reflexivity.
  - vm_compute; reflexivity.
Defined.

Lemma constraint_violation_witness :
  alike
    (exec (env_of []) "insert" 0 false
       (set_steps ([row ["1"]] ++ mk_step SQLITE_CONSTRAINT [] :: [])
          (world [compiled ["id"]] [])))
    (exec (env_of []) "insert" 0 false
       (set_steps ([row ["1"]] ++ mk_step SQLITE_DONE [] :: [])
          (world [compiled ["id"]] []))).
Proof.
  apply (constraint_violation_ends_like_completion (env_of []) eq_refl).
Defined.


Lemma max_retries_witness :
  let e := env_of [("ASH_CFG_DB_MAX_RETRIES", "-3")] in
  let w := world [compiled ["id"]; compiled ["id"]]
             [row ["1"]; answer SQLITE_LOCKED; row ["1"]; answer SQLITE_DONE] in
  db_max_retries e = 5
  /\ exists rs w',
       exec e "select 1" 0 false w = (Ret rs, w')
       /\ backoffs (trace w') = (backoffs (trace w) + 1 + 0)%nat
       /\ attempts (trace w') = (attempts (trace w) + 1 + 1 + 0)%nat.
Proof.
  intros e w.
  pose proof (max_retries_is_five_or_the_positive_setting e eq_refl
                ltac:(vm_compute; discriminate) eq_refl
                "select 1" 0 false w) as (Hvalue & _ & _ & Hexec).
  split; [exact (proj1 Hvalue)|].
  apply (Hexec [([row ["1"]], answer SQLITE_LOCKED)] [row ["1"]] [] []
           ([], compiled ["id"]) [([], compiled ["id"])] [] (mk_stmt ["id"])).
  - reflexivity.
  - reflexivity.
  - repeat constructor; vm_compute; discriminate.
  - reflexivity.
  - repeat constructor; vm_compute; discriminate.
  - repeat constructor.
  - vm_compute; discriminate.
  - vm_compute; discriminate.
Defined.

Lemma backoff_delay_witness :
  let e := env_of [("ASH_CFG_DB_FAIL_RANDOM_TIMEOUT", "7")] in
  exists ms,
    sleep_ms e (world [] []) = (Ret ms, emit (ESrand 1699996050) (world [] []))
    /\ ms = 0 + Z.of_N (rand_after e 1699996050) mod 7
    /\ 0 <= ms < 0 + 7.
Proof.
  intros e.
  apply (proj1 (proj2 (proj2 (backoff_delay_bounds e (world [] []) 0 7
                                eq_refl eq_refl)))).
  reflexivity.
Defined.

Lemma result_set_witness :
  let rs := ResultSet_new ["id"] [["2"]; ["1"]] in
  rows rs = List.length (data rs)
  /\ columns rs = List.length (headers rs)
  /\ Forall (fun row => List.length row = columns rs) (data rs)
  /\ rows rs <> 0%nat.
Proof.
  intros rs.
  eapply (result_set_invariant (env_of []) "select id from commands" 2 true
            (world [compiled ["id"]] five_rows)).
  vm_compute; reflexivity.
Defined.

Lemma insert_witness :
  insert (env_of []) (Some a_command)
    (mk_world [compiled []] [answer SQLITE_DONE] [42] [])
  = (Ret 42,
     mk_world [] [] []
       [ELastRowid; EFinalize; EStep;
        EPrepare "INSERT INTO commands (command, rval) VALUES ('ls -l', 0); "]).
Proof.
  apply (proj2 (proj2 (proj2 (insert_null_or_last_rowid (env_of [])
                                (mk_world [compiled []] [answer SQLITE_DONE] [42] []))))
           a_command (compiled []) [] (mk_stmt []) [] [] 42 []).
  - reflexivity.
  - reflexivity.
  - reflexivity.
  - reflexivity.
  - reflexivity.
Defined.

End Samples.

(** * Further properties of the persistence layer *)

(** ** What ends [exec] besides a completion *)

Section Endings.

Variable e : Env.
Hypothesis tries_fit : db_max_retries e < C.INT_MAX.

(** The state of [exec] when the statement compiled at once and [answers]
    rows were read, the limit not reached. *)
Lemma exec_after_rows (query : string) (limit : Z) (reverse : bool)
    (p0 : PrepareAnswer) (prest : list PrepareAnswer) (ps : sqlite3_stmt)
    (answers rest : list StepAnswer) (r : list Z) (t : list Event) :
  prepared p0 = Some ps ->
  Forall (fun a => step_code a = SQLITE_ROW) answers ->
  Z.of_nat (List.length answers) <= C.INT_MAX ->
  limit <= 0 \/ Z.of_nat (List.length answers) <= limit ->
  exec e query limit reverse (mk_world (p0 :: prest) (answers ++ rest) r t) =
  (l <- exec_for (List.length rest) e query limit (db_max_retries e)
          (sqlite3_column_count ps)
          (mk_locals ps (db_max_retries e + 1)
             (Z.of_nat (List.length answers)) (Z.of_nat (List.length answers))
             match answers with
             | [] => []
             | _ :: _ => stmt_column_names ps
             end
             (map (fun a => build_row a (sqlite3_column_count ps)) answers)) ;;
   sqlite3_finalize ;;
   ret (if l_rows l =? 0 then None
        else Some (ResultSet_new (l_headers l)
                     (if reverse && negb (l_rows l =? 0)
                      then rev (l_results l) else l_results l))))
    (mk_world prest rest r
       (repeat EStep (List.length answers) ++ EPrepare query :: t)).
Proof.
  intros Hps Hrows Hfit Hlim.
  unfold exec.
  unfold bind at 1; rewrite (first_tries_ok e tries_fit).
  unfold bind at 1; rewrite (prepare_stmt_at_once e query p0 prest ps _ r t tries_fit Hps).
  unfold bind at 1; cbn [steps].
  rewrite (exec_for_rows_then e _ _ _ _ _ _ _ (stmt_column_names ps));
    cbn [l_fetched l_rows l_results l_headers l_ps l_tries app];
    try lia; trivial.
  apply build_headers_names.
Qed.

(** X1.  A result code of [sqlite3_step] that the [switch] of [exec] does
    not name (anything but row, constraint, done, locked and busy) ends
    the process at once, also after rows were collected: the statement is
    finalized, the code is reported on [cerr] and at FATAL, and there is no
    backoff and no second compilation. *)
Theorem exec_unknown_code_is_fatal (query : string) (limit : Z) (reverse : bool)
    (w : World) (p0 : PrepareAnswer) (prest : list PrepareAnswer)
    (ps : sqlite3_stmt) (answers : list StepAnswer) (a : StepAnswer)
    (srest : list StepAnswer) :
  prepares w = p0 :: prest ->
  prepared p0 = Some ps ->
  steps w = answers ++ a :: srest ->
  Forall (fun a => step_code a = SQLITE_ROW) answers ->
  known_step_code (step_code a) = false ->
  Z.of_nat (List.length answers) <= C.INT_MAX ->
  limit <= 0 \/ Z.of_nat (List.length answers) < limit ->
  exists w' msg report,
    exec e query limit reverse w = (Stop Exited, w')
    /\ trace w' =
       ELog FATAL msg :: ECerr report :: EFinalize :: EStep
       :: repeat EStep (List.length answers) ++ EPrepare query :: trace w
    /\ prepares w' = prest /\ steps w' = srest.
Proof.
  intros Hp Hps Hs Hrows Hcode Hfit Hlim.
  destruct w as [p s r t]; cbn [prepares steps rowids trace] in *; subst p s.
  rewrite (exec_after_rows query limit reverse p0 prest ps answers (a :: srest) r t
             Hps Hrows Hfit ltac:(lia)).
  unfold bind at 1; cbn [List.length].
  rewrite exec_for_step.
  2:{ cbn [l_fetched]; apply orb_true_iff; destruct Hlim as [H|H];
        [right; apply Z.leb_le | left; apply Z.ltb_lt]; lia. }
  unfold known_step_code in Hcode.
  apply orb_false_elim in Hcode as [Hcode Hc4].
  apply orb_false_elim in Hcode as [Hcode Hc3].
  apply orb_false_elim in Hcode as [Hc1 Hc2].
  unfold exec_switch; rewrite Hc1, Hc2, Hc3, Hc4.
  unfold bind, sqlite3_finalize, does, LOG_FATAL, bind, does, stop, emit;
    cbn [prepares steps rowids trace].
  do 3 eexists; split; [reflexivity|].
  cbn [prepares steps rowids trace]; auto.
Qed.

End Endings.

(** ** What a ResultSet holds *)

Section Materialize.

Variable e : Env.

Lemma map_nth_seq {A B : Type} (f : A -> B) (d : A) (l : list A) :
  map (fun c => f (nth c l d)) (seq 0 (List.length l)) = map f l.
Proof.
  induction l as [|x l IH]; [reflexivity|].
  cbn [List.length seq map nth]; rewrite <- seq_shift, map_map; cbn [nth].
  now rewrite IH.
Qed.

Lemma build_row_cells (a : StepAnswer) :
  build_row a (List.length (step_cells a)) = map text_or_empty (step_cells a).
Proof.
  unfold build_row, sqlite3_column_text.
  exact (map_nth_seq text_or_empty None (step_cells a)).
Qed.

(** X2.  On a statement that compiles at once, yields rows and completes,
    the ResultSet of [exec] has the column names of the statement as its
    headers, in their order, and the text of every cell of every row read,
    in their order; a cell that is SQL NULL is the empty string, as an
    empty text is. *)
Theorem exec_result_is_names_and_cell_texts
    (query : string) (limit : Z) (reverse : bool)
    (w : World) (p0 : PrepareAnswer) (prest : list PrepareAnswer)
    (ps : sqlite3_stmt) (answers : list StepAnswer)
    (cells : list (option string)) (srest : list StepAnswer) :
  db_max_retries e < C.INT_MAX ->
  prepares w = p0 :: prest ->
  prepared p0 = Some ps ->
  steps w = answers ++ mk_step SQLITE_DONE cells :: srest ->
  Forall (fun a => step_code a = SQLITE_ROW) answers ->
  Forall (fun a => List.length (step_cells a) = sqlite3_column_count ps) answers ->
  Z.of_nat (List.length answers) <= C.INT_MAX ->
  fst (exec e query limit reverse w) =
  Ret match up_to limit (map (fun a => map text_or_empty (step_cells a)) answers) with
      | [] => None
      | collected =>
          Some (ResultSet_new (stmt_column_names ps)
                  (if reverse then rev collected else collected))
      end.
Proof.
  intros Hfit Hp Hps Hs Hrows Hcells Hlen.
  rewrite (exec_without_contention e query limit reverse w p0 prest ps answers
             cells srest Hfit Hp Hps Hs Hrows Hlen).
  replace (map (fun a => build_row a (sqlite3_column_count ps)) answers)
    with (map (fun a => map text_or_empty (step_cells a)) answers); [reflexivity|].
  apply map_ext_in; intros a Ha.
  rewrite Forall_forall in Hcells; rewrite <- (Hcells a Ha).
  symmetry; apply build_row_cells.
Qed.

End Materialize.

(** ** The retry budget of [exec] *)

Section Budget.

Variable e : Env.
Hypothesis logger_works : logger_ok e = true.
Hypothesis sleep_fits : sleep_retries e * 2 <= C.INT_MAX.
Hypothesis tries_fit : db_max_retries e < C.INT_MAX.

(** X3.  While the Logger can stamp its lines, and [retries * 2] in
    [ash_sleep] and [max_retries + 1] fit an [int]: at a busy or locked
    answer of [sqlite3_step], wherever among the rows it comes, [exec]
    backs off, compiles the statement again and steps it from its start;
    it does so as many as [max_retries + 1] times and then returns the
    rows of all the runs, those read before a contention ahead of those
    of the last run (and null when the last run has no row); at the
    contention answer after those it ends the process.  So a statement is
    stepped from its start up to [max_retries + 2] times, once more than
    [prepare_stmt] compiles one. *)
Theorem exec_retry_budget (query : string) (limit : Z) (reverse : bool)
    (w : World) (runs : list (list StepAnswer * StepAnswer))
    (srest : list StepAnswer) (first : list PrepareAnswer * PrepareAnswer)
    (again : list (list PrepareAnswer * PrepareAnswer))
    (prest : list PrepareAnswer) (ps : sqlite3_stmt) :
  prepares w = compiled_after (first :: again) ++ prest ->
  Forall (gives (db_max_retries e) ps) (first :: again) ->
  List.length again = List.length runs ->
  Forall (interruption limit) runs ->
  (forall answers cells,
      steps w = interrupted runs ++ answers ++ mk_step SQLITE_DONE cells :: srest ->
      Forall (fun a => step_code a = SQLITE_ROW) answers ->
      Z.of_nat (List.length answers) <= C.INT_MAX ->
      Z.of_nat (List.length runs) <= db_max_retries e + 1 ->
      exists w',
        exec e query limit reverse w =
          (Ret match up_to limit (rows_of (sqlite3_column_count ps) answers) with
               | [] => None
               | last =>
                   let collected :=
                     rows_before (sqlite3_column_count ps) runs ++ last in
                   Some (ResultSet_new (stmt_column_names ps)
                           (if reverse then rev collected else collected))
               end, w')
        /\ backoffs (trace w') =
           (backoffs (trace w) + List.length runs + failures (first :: again))%nat
        /\ attempts (trace w') =
           (attempts (trace w) + List.length runs + 1
            + failures (first :: again))%nat)
  /\ (forall answers busy,
        steps w = interrupted runs ++ answers ++ busy :: srest ->
        interruption limit (answers, busy) ->
        Z.of_nat (List.length runs) = db_max_retries e + 1 ->
        exists w',
          exec e query limit reverse w = (Stop Exited, w')
          /\ backoffs (trace w') =
             (backoffs (trace w) + List.length runs + failures (first :: again))%nat).
Proof.
  intros Hp Hgives Hlen Hruns; split.
  - intros answers cells Hs Hrows Hfit Hk.
    destruct (exec_interrupted e logger_works sleep_fits tries_fit query limit
                reverse w runs answers cells srest first again prest ps
                Hs Hp Hgives Hlen Hruns Hrows Hfit Hk)
      as (w' & H1 & _ & H2 & H3); eauto.
  - intros answers busy Hs Hlast Hk.
    destruct (exec_interrupted_gives_up e logger_works sleep_fits tries_fit query
                limit reverse w runs answers busy srest first again prest ps
                Hs Hp Hgives Hlen Hruns Hlast Hk)
      as (w' & H1 & _ & H2 & _); eauto.
Qed.

End Budget.

(** ** Opening the store *)

Section Opening.

Variable e : Env.

(** X4.  When the file is there (or could be created) and opens, and the
    counting query tells that as many registered tables are in the store
    as the registry has, the constructor does nothing more: no statement
    but the counting query reaches the engine and nothing is logged. *)
Theorem open_with_all_tables_runs_no_ddl
    (r : Registry) (db_filename : string) (w w1 : World)
    (rs : option ResultSet) :
  stat_found e = true \/ fopen_ok e = true ->
  sqlite3_open_ok e = true ->
  exec e (count_query r) 0 false (opened e db_filename w) = (Ret rs, w1) ->
  defined_tables_of rs w1 = (Ret (Z.of_nat (List.length (table_names r))), w1) ->
  Database_new e r db_filename w = (Ret tt, w1).
Proof.
  intros Hfile Hopen Hexec Hcount.
  rewrite Database_new_opened by assumption.
  unfold bind at 1; rewrite Hexec.
  unfold bind at 1; rewrite Hcount.
  now rewrite Z.eqb_refl.
Qed.

(** X5.  When fewer registered tables are in the store than the registry
    has, the constructor hands the creation statements of the whole
    registry to [sqlite3_exec] as one transaction that switches foreign
    keys off; when [sqlite3_exec] fails, the failure is written to [cerr]
    and the constructor returns all the same; no warning is logged. *)
Theorem open_with_missing_tables_bootstraps
    (r : Registry) (db_filename : string) (w w1 : World)
    (rs : option ResultSet) (defined_tables : Z) :
  stat_found e = true \/ fopen_ok e = true ->
  sqlite3_open_ok e = true ->
  exec e (count_query r) 0 false (opened e db_filename w) = (Ret rs, w1) ->
  defined_tables_of rs w1 = (Ret defined_tables, w1) ->
  defined_tables < Z.of_nat (List.length (table_names r)) ->
  exists w2,
    Database_new e r db_filename w = (Ret tt, w2)
    /\ (sqlite3_exec_rc e = 0 ->
        trace w2 = EExec (get_create_tables r) :: trace w1)
    /\ (sqlite3_exec_rc e <> 0 ->
        exists msg, trace w2 = ECerr msg :: EExec (get_create_tables r) :: trace w1)
    /\ get_create_tables r =
       ("PRAGMA foreign_keys=OFF;BEGIN TRANSACTION;"
        ++ String.concat "" (map (fun sql => sql ++ "; ") (create_tables r))
        ++ "COMMIT;")%string.
Proof.
  intros Hfile Hopen Hexec Hcount Hless.
  rewrite Database_new_opened by assumption.
  unfold bind at 1; rewrite Hexec.
  unfold bind at 1; rewrite Hcount.
  replace (defined_tables =? Z.of_nat (List.length (table_names r))) with false
    by (symmetry; apply Z.eqb_neq; lia).
  replace (Z.of_nat (List.length (table_names r)) <? defined_tables) with false
    by (symmetry; apply Z.ltb_ge; lia).
  unfold init_db, bind, does, when, ret.
  destruct (sqlite3_exec_rc e =? 0) eqn:Hrc; cbn [negb];
    [apply Z.eqb_eq in Hrc | apply Z.eqb_neq in Hrc];
    eexists; (split; [reflexivity|]); (split; [|split]);
    try reflexivity; try (intros; lia); try (intros; eexists; reflexivity).
Qed.

(** X6.  When the file is missing and cannot be created, or when it cannot
    be opened, the constructor ends the process with a FATAL line before
    any SQL reaches the engine: no answer of the engine is read and
    neither the counting query nor a table creation is sent. *)
Theorem open_failure_is_fatal_before_any_sql
    (r : Registry) (db_filename : string) (w : World) :
  (stat_found e = false /\ fopen_ok e = false) \/ sqlite3_open_ok e = false ->
  exists w',
    Database_new e r db_filename w = (Stop Exited, w')
    /\ prepares w' = prepares w /\ steps w' = steps w
    /\ filter is_sql (trace w') = filter is_sql (trace w)
    /\ exists msg rest, trace w' = ELog FATAL msg :: rest.
Proof.
  intros H; unfold Database_new, when, bind, does, LOG_FATAL, bind, does, stop, ret.
  destruct (stat_found e), (fopen_ok e), (sqlite3_open_ok e); cbn [negb];
    try (destruct H as [[H1 H2]|H]; discriminate);
    eexists; (split; [reflexivity|]); cbn; repeat split; eauto.
Qed.

End Opening.

(** ** The literal that [quote] makes *)

Section Literal.

Local Open Scope string_scope.

Lemma length_append (a b : string) :
  String.length (a ++ b) = (String.length a + String.length b)%nat.
Proof. induction a as [|x a IH]; simpl; [reflexivity | now rewrite IH]. Qed.

Lemma append_cancel_r (c : string) : forall a b, a ++ c = b ++ c -> a = b.
Proof.
  induction a as [|x a IH]; intros [|y b] H; cbn [append] in H.
  - reflexivity.
  - apply (f_equal String.length) in H; cbn [String.length] in H.
    rewrite length_append in H; lia.
  - apply (f_equal String.length) in H; cbn [String.length] in H.
    rewrite length_append in H; lia.
  - injection H as -> H; f_equal; now apply IH.
Qed.

Lemma quote_nonempty (c : ascii) (r : string) :
  quote (String c r) = String apostrophe (quoted_body (String c r) ++ "'").
Proof.
  unfold quote, push_back; rewrite quote_for_body.
  change "'" with (String apostrophe ""); cbn [append]; reflexivity.
Qed.

Lemma quoted_char_cases (c : ascii) :
  (c = apostrophe /\ quoted_char c = String c (String c ""))
  \/ (c <> apostrophe /\ kept c = true /\ quoted_char c = String c "")
  \/ (c <> apostrophe /\ kept c = false /\ quoted_char c = "").
Proof.
  unfold quoted_char, kept.
  destruct (Ascii.eqb c tab) eqn:Ht.
  { apply Ascii.eqb_eq in Ht; subst c; right; left; repeat split; discriminate. }
  destruct (Ascii.eqb c newline) eqn:Hn.
  { apply Ascii.eqb_eq in Hn; subst c; right; left; repeat split; discriminate. }
  cbn [orb].
  destruct (Ascii.eqb c apostrophe) eqn:Hq.
  { apply Ascii.eqb_eq in Hq; subst c; now left. }
  apply Ascii.eqb_neq in Hq.
  rewrite !orb_false_r.
  destruct (C.isprint c); right; [left | right]; auto.
Qed.

Lemma quoted_body_escaped (s : string) :
  escaped (quoted_body s)
  /\ all_chars kept (quoted_body s) = true
  /\ (String.length (quoted_body s) <= 2 * String.length s)%nat.
Proof.
  induction s as [|c s (IH1 & IH2 & IH3)]; cbn [quoted_body].
  - repeat split; [constructor | lia].
  - destruct (quoted_char_cases c) as [(-> & ->)|[(Hc & Hk & ->)|(Hc & Hk & ->)]];
      cbn [append all_chars String.length].
    + repeat split; [now constructor | now rewrite IH2 | lia].
    + repeat split; [now constructor | now rewrite Hk, IH2 | lia].
    + repeat split; [assumption | assumption | lia].
Qed.

(** X7.  For every input that is not empty, [quote] gives a single quote,
    a body and a single quote; in the body every single quote is one of a
    pair, every character is printable or a tab or a newline, and there
    are at most twice as many characters as in the input.  An input that
    is not empty never gives the keyword null. *)
Theorem quote_makes_an_escaped_literal (c : ascii) (r : string) :
  exists body,
    quote (String c r) = String apostrophe (body ++ String apostrophe "")
    /\ escaped body
    /\ all_chars kept body = true
    /\ (String.length body <= 2 * String.length (String c r))%nat
    /\ quote (String c r) <> "null".
Proof.
  exists (quoted_body (String c r)).
  destruct (quoted_body_escaped (String c r)) as (H1 & H2 & H3).
  rewrite quote_nonempty; repeat split; trivial.
  discriminate.
Qed.

Lemma quoted_body_injective :
  forall s1 s2,
    all_chars kept s1 = true -> all_chars kept s2 = true ->
    quoted_body s1 = quoted_body s2 -> s1 = s2.
Proof.
  induction s1 as [|c1 s1 IH]; intros [|c2 s2] H1 H2 H; cbn [quoted_body all_chars] in *.
  - reflexivity.
  - apply andb_prop in H2 as [Hk2 _].
    destruct (quoted_char_cases c2) as [(_ & E)|[(_ & _ & E)|(_ & Hn & _)]];
      [rewrite E in H; discriminate | rewrite E in H; discriminate | congruence].
  - apply andb_prop in H1 as [Hk1 _].
    destruct (quoted_char_cases c1) as [(_ & E)|[(_ & _ & E)|(_ & Hn & _)]];
      [rewrite E in H; discriminate | rewrite E in H; discriminate | congruence].
  - apply andb_prop in H1 as [Hk1 H1]; apply andb_prop in H2 as [Hk2 H2].
    destruct (quoted_char_cases c1) as [(Hq1 & E1)|[(Hq1 & _ & E1)|(_ & Hn & _)]];
      [| |congruence];
      (destruct (quoted_char_cases c2) as [(Hq2 & E2)|[(Hq2 & _ & E2)|(_ & Hn & _)]];
       [| |congruence]);
      rewrite E1, E2 in H; cbn [append] in H.
    + injection H as _ _ H; subst; f_equal; now apply IH.
    + injection H as Hc _; congruence.
    + injection H as Hc _; congruence.
    + injection H as Hc H; subst; f_equal; now apply IH.
Qed.

(** X8.  On values made of printable characters, tabs and newlines,
    [quote] loses nothing: two such values with the same literal are the
    same value (the empty value, whose literal is null, included). *)
Theorem quote_is_injective_on_kept_characters (s1 s2 : string) :
  all_chars kept s1 = true ->
  all_chars kept s2 = true ->
  quote s1 = quote s2 ->
  s1 = s2.
Proof.
  intros H1 H2 H.
  destruct s1 as [|c1 r1], s2 as [|c2 r2]; trivial.
  - rewrite quote_nonempty in H; discriminate.
  - rewrite quote_nonempty in H; discriminate.
  - rewrite !quote_nonempty in H; injection H as H.
    apply append_cancel_r in H.
    now apply quoted_body_injective.
Qed.

Lemma quoted_body_dropped (s : string) :
  all_chars (fun c => negb (kept c)) s = true -> quoted_body s = "".
Proof.
  induction s as [|c s IH]; cbn [all_chars quoted_body]; [reflexivity|].
  intros H; apply andb_prop in H as [Hc Hs].
  apply negb_true_iff in Hc.
  destruct (quoted_char_cases c) as [(-> & _)|[(_ & Hk & _)|(_ & _ & ->)]];
    [discriminate | congruence | now rewrite IH].
Qed.

(** X9.  A value that is not empty but holds only characters that [quote]
    drops gives the literal of the empty string, two single quotes, and
    not the keyword null that the empty value gives. *)
Theorem quote_of_dropped_characters_is_the_empty_literal (c : ascii) (r : string) :
  all_chars (fun c => negb (kept c)) (String c r) = true ->
  quote (String c r) = "''" /\ quote "" = "null".
Proof.
  intros H; split; [|reflexivity].
  rewrite quote_nonempty, (quoted_body_dropped _ H); reflexivity.
Qed.

End Literal.

(** ** Config and Logger *)

Section Settings.

Variable e : Env.

Local Open Scope string_scope.

Lemma get_ash_env_prefixed (key : string) :
  String.prefix "ASH_CFG_" key = false ->
  get_ash_env e ("ASH_CFG_" ++ key) = get_ash_env e key.
Proof.
  intros H; unfold get_ash_env; rewrite H.
  replace (String.prefix "ASH_CFG_" ("ASH_CFG_" ++ key)) with true; [reflexivity|].
  cbn.
  repeat match goal with
         | |- context [Ascii.ascii_dec ?a ?b] =>
             destruct (Ascii.ascii_dec a b); [|congruence]
         end.
  now destruct key.
Qed.

(** X10.  A setting is read from the environment variable that carries
    the prefix ASH_CFG_, whether the key is given with the prefix or
    without it: [get_int], [get_string], [has] and [sets] give the same
    for both forms of a key. *)
Theorem config_key_with_or_without_prefix (key : string) (dv : Z)
    (ds : string) (db : bool) :
  String.prefix "ASH_CFG_" key = false ->
  get_int e ("ASH_CFG_" ++ key) dv = get_int e key dv
  /\ get_string e ("ASH_CFG_" ++ key) ds = get_string e key ds
  /\ has e ("ASH_CFG_" ++ key) = has e key
  /\ sets e ("ASH_CFG_" ++ key) db = sets e key db
  /\ get_ash_env e key = getenv e ("ASH_CFG_" ++ key).
Proof.
  intros H; unfold get_int, get_string, has, sets.
  rewrite (get_ash_env_prefixed key H).
  repeat split.
  unfold get_ash_env; now rewrite H.
Qed.

(** X12.  [parse] reads back every name that [to_str] writes, and any
    other text, a level name in lower case for one, is UNKNOWN. *)
Theorem parse_reads_back_to_str :
  (forall level, parse (to_str level) = level)
  /\ (forall input, parse input <> UNKNOWN -> to_str (parse input) = input).
Proof.
  split; [intros []; reflexivity|].
  intros input; unfold parse.
  repeat match goal with
         | |- context [String.eqb input ?s] =>
             destruct (String.eqb_spec input s); [subst; reflexivity|]
         end.
  intros H; now elim H.
Qed.

(** X13.  A message below the level named by LOG_LEVEL is written to
    /dev/null and one at or above it to the file named by LOG_FILE; when
    LOG_LEVEL is not set nothing is filtered; when it is set to a text
    that is no level name, every message, FATAL included, is written to
    /dev/null. *)
Theorem log_target_by_level (level : Severity) :
  (severity_value level < severity_value (parse (get_string e "LOG_LEVEL" "DEBUG")) ->
   get_target e level = "/dev/null")
  /\ (severity_value (parse (get_string e "LOG_LEVEL" "DEBUG")) <= severity_value level ->
      get_target e level = get_string e "LOG_FILE" "/dev/null")
  /\ (getenv e "ASH_CFG_LOG_LEVEL" = None ->
      get_target e level = get_string e "LOG_FILE" "/dev/null")
  /\ (forall text,
        getenv e "ASH_CFG_LOG_LEVEL" = Some text ->
        parse text = UNKNOWN -> level <> UNKNOWN ->
        get_target e level = "/dev/null").
Proof.
  unfold get_target; repeat split.
  - intros H; apply Z.ltb_lt in H; now rewrite H.
  - intros H; apply Z.ltb_ge in H; now rewrite H.
  - intros H; unfold get_string at 1, get_ash_env; cbn [String.prefix].
    cbn; rewrite H; cbn.
    replace (severity_value level <? 0)%Z with false; [reflexivity|].
    symmetry; apply Z.ltb_ge; destruct level; cbn; lia.
  - intros text H Hp Hl; unfold get_string at 1, get_ash_env; cbn [String.prefix].
    cbn; rewrite H, Hp; cbn.
    destruct level; try reflexivity; now elim Hl.
Qed.

End Settings.

(** ** How long ash_sleep sleeps *)

Section Sleeping.

Variable e : Env.
Hypothesis logger_works : logger_ok e = true.

(** The loop never clears [to_sleep]: it leaves only when the attempts are
    used up. *)
Lemma nanosleep_loop_uses_every_attempt (ms : Z) :
  forall (naps : list Nap) (sleep_attempts : Z) (to_sleep : timespec) (w : World),
    tv_sec to_sleep <> 0 \/ tv_nsec to_sleep <> 0 ->
    0 <= sleep_attempts <= Z.of_nat (List.length naps) ->
    exists w' more,
      nanosleep_loop e ms naps sleep_attempts to_sleep w
      = (Ret (skipn (Z.to_nat sleep_attempts) naps), w')
      /\ trace w' = ELog WARNING sleep_break_warning :: more ++ trace w
      /\ prepares w' = prepares w /\ steps w' = steps w /\ rowids w' = rowids w.
Proof.
  assert (Hlast : forall naps to_sleep w,
             tv_sec to_sleep <> 0 \/ tv_nsec to_sleep <> 0 ->
             exists w' more,
               nanosleep_loop e ms naps 0 to_sleep w = (Ret naps, w')
               /\ trace w' = ELog WARNING sleep_break_warning :: more ++ trace w
               /\ prepares w' = prepares w /\ steps w' = steps w
               /\ rowids w' = rowids w).
  { intros naps to_sleep w Hnz.
    assert (Hcond : negb ((tv_sec to_sleep =? 0) && (tv_nsec to_sleep =? 0)) = true).
    { apply negb_true_iff, andb_false_iff.
      destruct Hnz as [H|H]; [left | right]; now apply Z.eqb_neq. }
    destruct naps; cbn [nanosleep_loop]; rewrite Hcond; cbn [Z.eqb];
      unfold bind; rewrite (LOG_ok e logger_works) by discriminate;
      eexists; exists []; (split; [reflexivity|]); cbn; auto. }
  induction naps as [|nap naps IH]; intros sleep_attempts to_sleep w Hnz Hrange.
  - cbn [List.length] in Hrange.
    replace sleep_attempts with 0 by lia.
    now apply Hlast.
  - destruct (Z.eq_dec sleep_attempts 0) as [->|Hpos]; [now apply Hlast|].
    assert (Hcond : negb ((tv_sec to_sleep =? 0) && (tv_nsec to_sleep =? 0)) = true).
    { apply negb_true_iff, andb_false_iff.
      destruct Hnz as [H|H]; [left | right]; now apply Z.eqb_neq. }
    cbn [List.length] in Hrange; rewrite Nat2Z.inj_succ in Hrange.
    replace (Z.to_nat sleep_attempts) with (S (Z.to_nat (sleep_attempts - 1))) by lia.
    cbn [nanosleep_loop skipn]; rewrite Hcond.
    replace (sleep_attempts =? 0) with false by (symmetry; now apply Z.eqb_neq).
    assert (Hstep : forall w1 to_sleep1,
               tv_sec to_sleep1 <> 0 \/ tv_nsec to_sleep1 <> 0 ->
               (exists more1, trace w1 = more1 ++ trace w) ->
               prepares w1 = prepares w -> steps w1 = steps w -> rowids w1 = rowids w ->
               exists w' more,
                 nanosleep_loop e ms naps (sleep_attempts - 1) to_sleep1 w1
                 = (Ret (skipn (Z.to_nat (sleep_attempts - 1)) naps), w')
                 /\ trace w' = ELog WARNING sleep_break_warning :: more ++ trace w
                 /\ prepares w' = prepares w /\ steps w' = steps w
                 /\ rowids w' = rowids w).
    { intros w1 to_sleep1 Hnz1 (more1 & Ht) Hp Hs Hr.
      destruct (IH (sleep_attempts - 1) to_sleep1 w1 Hnz1 ltac:(lia))
        as (w' & more & H1 & H2 & H3 & H4 & H5).
      exists w', (more ++ more1); rewrite H2, Ht, app_assoc.
      repeat split; congruence. }
    destruct (nap_rval nap =? -1).
    { unfold bind; rewrite (LOG_ok e logger_works) by discriminate.
      apply Hstep; trivial; eexists [_]; reflexivity. }
    unfold bind at 1.
    assert (Hlogs : exists w1,
               (if nap_rval nap =? 0 then ret tt
                else if nap_rval nap =? EFAULT then
                  LOG e ERROR [Txt "clock_nanosleep: EFAULT sleeping "; Num ms; Txt " ms."]
                else if nap_rval nap =? EINTR then
                  LOG e ERROR [Txt "clock_nanosleep: EINTR sleeping "; Num ms; Txt " ms."]
                else if nap_rval nap =? EINVAL then
                  LOG e ERROR [Txt "clock_nanosleep: EINVAL sleeping (tv_sec=";
                               Num (tv_sec to_sleep); Txt ", tv_nsec=";
                               Num (tv_nsec to_sleep); Txt ")"]
                else
                  LOG e ERROR [Txt "Unexpected rval from clock_nanosleep: ";
                               Num (nap_rval nap)]) w = (Ret tt, w1)
               /\ (exists more1, trace w1 = more1 ++ trace w)
               /\ prepares w1 = prepares w /\ steps w1 = steps w
               /\ rowids w1 = rowids w).
    { repeat match goal with
             | |- context [if ?b then _ else _] => destruct b
             end;
        try rewrite (LOG_ok e logger_works) by discriminate;
        eexists; (split; [reflexivity|]); cbn; repeat split;
        solve [exists []; reflexivity | eexists [_]; reflexivity]. }
    destruct Hlogs as (w1 & -> & (more1 & Ht1) & Hp1 & Hs1 & Hr1).
    destruct ((tv_sec (nap_remaining nap) =? 0)
              && (0 <? tv_nsec (nap_remaining nap))
              && (tv_nsec (nap_remaining nap) <=? 999999999)
              && (tv_nsec (nap_remaining nap) <? tv_nsec to_sleep)) eqn:Hrem.
    + unfold bind; rewrite (LOG_ok e logger_works) by discriminate.
      apply Hstep; cbn; trivial.
      * right.
        apply andb_prop in Hrem as [Hrem _]; apply andb_prop in Hrem as [Hrem _].
        apply andb_prop in Hrem as [_ Hrem]; apply Z.ltb_lt in Hrem; lia.
      * eexists (_ :: more1); cbn; now rewrite Ht1.
    + apply Hstep; eauto.
Qed.

Lemma timespec_of_ms_not_zero (ms : Z) :
  0 < ms -> tv_sec (timespec_of_ms ms) <> 0 \/ tv_nsec (timespec_of_ms ms) <> 0.
Proof.
  intros H; unfold timespec_of_ms; cbn [tv_sec tv_nsec].
  destruct (Z.eq_dec (ms / 1000) 0) as [Hq|Hq]; [right | now left].
  pose proof (Z.div_mod ms 1000 ltac:(lia)).
  pose proof (Z.mod_pos_bound ms 1000 ltac:(lia)).
  nia.
Qed.

Lemma sleep_retries_not_negative : 0 <= sleep_retries e.
Proof.
  unfold sleep_retries.
  destruct (get_int e "DB_MAX_RETRIES" (-1) <? 0) eqn:H; [lia|].
  now apply Z.ltb_ge in H.
Qed.

(** X14.  While the Logger can stamp its lines: once [ash_sleep] has
    decided on a delay that is not zero, it calls [clock_nanosleep] exactly
    [2 * retries] times, whatever the calls answer, a sleep that ran to
    its end included: nothing in the loop clears [to_sleep], so the loop
    ends only at the safety break, which logs a warning.  With
    DB_MAX_RETRIES set to 0 it does not sleep at all.  The call returns
    when the difference of the two clock readings fits a [long]. *)
Theorem ash_sleep_sleeps_twice_retries_times
    (ms : Z) (clock : Clock) (naps : list Nap) (w : World) (elapsed : Z) :
  0 < ms ->
  sleep_retries e * 2 <= C.INT_MAX ->
  sleep_retries e * 2 <= Z.of_nat (List.length naps) ->
  elapsed_ms clock = Some elapsed ->
  exists w' later earlier,
    sleep_phase e ms clock naps w
    = (Ret (skipn (Z.to_nat (sleep_retries e * 2)) naps), w')
    /\ trace w' = later ++ ELog WARNING sleep_break_warning :: earlier ++ trace w
    /\ (get_int e "DB_MAX_RETRIES" (-1) = 0 ->
        skipn (Z.to_nat (sleep_retries e * 2)) naps = naps).
Proof.
  intros Hms Hfit Hnaps Helapsed.
  pose proof sleep_retries_not_negative as Hr.
  unfold sleep_phase.
  unfold bind at 1.
  assert (Hbefore : exists w0 early,
             when (negb (before_ok clock))
               (does (ECerr [Txt "clock_gettime failed"; EngineMsg])) w = (Ret tt, w0)
             /\ trace w0 = early ++ trace w).
  { destruct (before_ok clock); cbn [negb when];
      [exists w, [] | eexists; eexists [_]]; split; reflexivity. }
  destruct Hbefore as (w0 & early & -> & Ht0).
  replace (C.INT_MAX <? sleep_retries e * 2) with false
    by (symmetry; apply Z.ltb_ge; lia).
  replace (C.to_uint (sleep_retries e * 2)) with (sleep_retries e * 2)
    by (unfold C.to_uint, C.INT_MAX in *; symmetry; apply Z.mod_small; lia).
  unfold bind at 1.
  destruct (nanosleep_loop_uses_every_attempt ms naps (sleep_retries e * 2)
              (timespec_of_ms ms) w0 (timespec_of_ms_not_zero ms Hms) ltac:(lia))
    as (w1 & more & -> & Ht1 & _).
  unfold bind at 1.
  assert (Hafter : exists w2 late,
             when (negb (after_ok clock))
               (does (ECerr [Txt "clock_gettime failed"; EngineMsg])) w1 = (Ret tt, w2)
             /\ trace w2 = late ++ trace w1).
  { destruct (after_ok clock); cbn [negb when];
      [exists w1, [] | eexists; eexists [_]]; split; reflexivity. }
  destruct Hafter as (w2 & late & -> & Ht2).
  rewrite Helapsed.
  unfold bind at 1; rewrite (LOG_ok e logger_works) by discriminate.
  assert (Hend : forall (b1 b2 : bool) m1 m2 w3,
             exists w4 last,
               (when b1 (LOG e ERROR m1) ;; when b2 (LOG e ERROR m2) ;;
                ret (skipn (Z.to_nat (sleep_retries e * 2)) naps)) w3
               = (Ret (skipn (Z.to_nat (sleep_retries e * 2)) naps), w4)
               /\ trace w4 = last ++ trace w3).
  { intros [] [] m1 m2 w3; unfold bind; cbn [when ret];
      try rewrite !(LOG_ok e logger_works) by discriminate;
      eexists; [eexists [_; _] | eexists [_] | eexists [_] | exists []];
      split; reflexivity. }
  match goal with |- context [(when ?b1 (LOG e ERROR ?m1) ;; when ?b2 (LOG e ERROR ?m2) ;; _) ?w3] =>
    destruct (Hend b1 b2 m1 m2 w3) as (w4 & last & -> & Ht4) end.
  exists w4, (last ++ [ELog INFO [Txt "Slept "; Num (to_ulong elapsed);
                                   Txt " milliseconds."]] ++ late),
    (more ++ early).
  split; [reflexivity|]; split.
  - rewrite Ht4; cbn [trace emit]; rewrite Ht2, Ht1, Ht0.
    repeat (rewrite <- app_assoc; cbn [app]). reflexivity.
  - intros Hzero; unfold sleep_retries; rewrite Hzero; reflexivity.
Qed.

End Sleeping.

(** ** Formatting a ResultSet *)

Section Widths.

Lemma nth_error_middle {A : Type} (pre post : list A) (x : A) :
  nth_error (pre ++ x :: post) (List.length pre) = Some x.
Proof. induction pre as [|y pre IH]; [reflexivity | exact IH]. Qed.

Lemma assign_middle {A : Type} (pre post : list A) (x y : A) :
  assign (pre ++ x :: post) (List.length pre) y = Some (pre ++ y :: post).
Proof.
  induction pre as [|z pre IH]; [reflexivity|].
  cbn [app List.length assign]; now rewrite IH.
Qed.

Lemma length_widen_row (widths : list nat) (row : list string) :
  List.length (widen_row widths row) = List.length widths.
Proof.
  revert row; induction widths as [|w widths IH]; intros [|cell row];
    cbn [widen_row List.length]; auto.
Qed.

(** The inner loop of [get_widths] over the columns of row [r]. *)
Lemma widen_columns (rs : ResultSet) (r : nat) (rpre : list string) :
  forall (wpost : list nat) (rpost : list string) (wpre : list nat),
    nth_error (data rs) r = Some (rpre ++ rpost) ->
    List.length wpre = List.length rpre ->
    List.length wpost = List.length rpost ->
    for_loop (List.length wpost) (fun c widths => widen rs r c widths)
      (List.length wpre) (wpre ++ wpost)
    = Some (wpre ++ widen_row wpost rpost).
Proof.
  revert rpre.
  intros rpre wpost; revert rpre.
  induction wpost as [|w wpost IH]; intros rpre [|cell rpost] wpre Hrow Hpre Hpost;
    try discriminate; [reflexivity|].
  cbn [List.length for_loop widen_row].
  unfold widen at 1, cell_at; rewrite Hrow.
  rewrite nth_error_middle, Hpre, nth_error_middle, <- Hpre, assign_middle.
  specialize (IH (rpre ++ [cell]) rpost
                (wpre ++ [Nat.max w (Nat.min max_w (XX + String.length cell))])).
  rewrite <- !app_assoc in IH; cbn [app] in IH.
  rewrite !length_app in IH; cbn [List.length] in IH.
  rewrite Nat.add_1_r in IH.
  apply IH; [exact Hrow | lia | cbn [List.length] in Hpost; lia].
Qed.

(** The outer loop of [get_widths] over the rows. *)
Lemma widen_rows (rs : ResultSet) :
  forall (dpost dpre : list RowType) (widths : list nat),
    data rs = dpre ++ dpost ->
    List.length widths = columns rs ->
    Forall (fun row : RowType => List.length row = columns rs) dpost ->
    for_loop (List.length dpost)
      (fun r widths =>
         for_loop (columns rs) (fun c widths => widen rs r c widths) 0 widths)
      (List.length dpre) widths
    = Some (fold_left widen_row dpost widths).
Proof.
  induction dpost as [|row dpost IH]; intros dpre widths Hdata Hw Hrows;
    [reflexivity|].
  inversion Hrows as [|? ? Hrow Hrows']; subst.
  cbn [List.length for_loop fold_left].
  pose proof (widen_columns rs (List.length dpre) [] widths row []) as Hin.
  cbn [app List.length] in Hin; rewrite Hw in Hin.
  rewrite Hin; [|rewrite Hdata; apply nth_error_middle | reflexivity | lia].
  specialize (IH (dpre ++ [row]) (widen_row widths row)).
  rewrite length_app in IH; cbn [List.length] in IH; rewrite Nat.add_1_r in IH.
  apply IH; [now rewrite <- app_assoc | now rewrite length_widen_row | exact Hrows'].
Qed.

Lemma get_widths_fold (rs : ResultSet) (do_show_headings : bool) :
  well_formed rs ->
  get_widths rs do_show_headings
  = Some (fold_left widen_row (data rs)
            (map (fun h => if do_show_headings then (XX + String.length h)%nat else XX)
               (headers rs))).
Proof.
  intros (Hr & Hc & Hrows); unfold get_widths.
  rewrite Hr.
  apply (widen_rows rs (data rs) []); [reflexivity | now rewrite length_map | exact Hrows].
Qed.

Lemma nth_error_widen_row (c : nat) :
  forall (widths : list nat) (row : list string) (w : nat),
    nth_error widths c = Some w ->
    nth_error (widen_row widths row) c
    = Some match nth_error row c with
           | Some cell => Nat.max w (Nat.min max_w (XX + String.length cell))
           | None => w
           end.
Proof.
  induction c as [|c IH]; intros [|w0 widths] [|cell row] w H;
    try discriminate; cbn [widen_row nth_error] in *; try assumption.
  - now injection H as ->.
  - now apply IH.
Qed.

(** What the widths are after some rows, in terms of what they were. *)
Lemma fold_widen_row_bounds (c : nat) :
  forall (lines : list RowType) (widths : list nat) (w0 : nat),
    nth_error widths c = Some w0 ->
    exists w,
      nth_error (fold_left widen_row lines widths) c = Some w
      /\ (w0 <= w <= Nat.max w0 max_w)%nat
      /\ (forall row cell,
             In row lines -> nth_error row c = Some cell ->
             (Nat.min max_w (XX + String.length cell) <= w)%nat).
Proof.
  induction lines as [|row lines IH]; intros widths w0 H; cbn [fold_left].
  - exists w0; repeat split; try lia; [assumption | intros ? ? []].
  - pose proof (nth_error_widen_row c widths row w0 H) as H1.
    destruct (IH _ _ H1) as (w & Hw & Hbound & Hcells).
    exists w; split; [exact Hw|]; split.
    + destruct (nth_error row c); lia.
    + intros row' cell [<-|Hin] Hcell; [|eauto].
      rewrite Hcell in Hbound; lia.
Qed.

(** X15.  For a ResultSet as the constructor makes it, [get_widths] reads
    no vector out of range and gives one width for each column; the width
    of a column is at least [XX = 4] more than the length of its heading
    (at least 4 when headings are hidden), at least 4 more than the length
    of each of its cells that is at most 76 characters long, at least 80
    for a longer cell, and never more than the larger of 80 and what the
    heading asks for. *)
Theorem get_widths_bounds (rs : ResultSet) (do_show_headings : bool) :
  well_formed rs ->
  exists widths,
    get_widths rs do_show_headings = Some widths
    /\ List.length widths = columns rs
    /\ (forall c h,
           nth_error (headers rs) c = Some h ->
           exists w,
             nth_error widths c = Some w
             /\ let asked := if do_show_headings then (XX + String.length h)%nat else XX in
                (asked <= w <= Nat.max asked max_w)%nat
                /\ (forall r cell,
                       cell_at rs r c = Some cell ->
                       (Nat.min max_w (XX + String.length cell) <= w)%nat)).
Proof.
  intros Hwf; pose proof Hwf as (Hr & Hc & Hrows).
  rewrite (get_widths_fold rs do_show_headings Hwf).
  eexists; split; [reflexivity|]; split.
  - clear Hrows Hr; revert Hc; generalize (columns rs); intros n Hn.
    assert (H : forall lines ws, List.length (fold_left widen_row lines ws) = List.length ws).
    { induction lines as [|row lines IH]; intros ws; cbn [fold_left]; [reflexivity|].
      now rewrite IH, length_widen_row. }
    now rewrite H, length_map.
  - intros c h Hh.
    destruct (fold_widen_row_bounds c (data rs)
                (map (fun h => if do_show_headings then (XX + String.length h)%nat else XX)
                   (headers rs))
                (if do_show_headings then (XX + String.length h)%nat else XX))
      as (w & Hw & Hbound & Hcells).
    { now rewrite nth_error_map, Hh. }
    exists w; split; [exact Hw|]; split; [exact Hbound|].
    intros r cell Hcell; unfold cell_at in Hcell.
    destruct (nth_error (data rs) r) as [row|] eqn:Hrow; [|discriminate].
    apply (Hcells row cell); [eapply nth_error_In; eassumption | exact Hcell].
Qed.

End Widths.

Section Delimited.

Local Open Scope string_scope.

Lemma delimited_headings_concat (d : string) :
  forall (hs : list string) (c : nat) (out : string),
    delimited_headings hs (c + List.length hs) d c out = out ++ String.concat d hs.
Proof.
  induction hs as [|h hs IH]; intros c out; cbn [delimited_headings String.concat].
  - now rewrite append_empty.
  - cbn [List.length].
    replace (c + S (List.length hs))%nat with (S c + List.length hs)%nat by lia.
    rewrite IH.
    destruct hs as [|h' hs].
    + cbn [List.length String.concat].
      replace (c + 1 <? S c + 0)%nat with false by (symmetry; apply Nat.ltb_ge; lia).
      now rewrite !append_empty.
    + replace (c + 1 <? S c + List.length (h' :: hs))%nat with true
        by (symmetry; apply Nat.ltb_lt; cbn [List.length]; lia).
      now rewrite !append_assoc.
Qed.

(** The inner loop of [insert_delimited] over the cells of row [r]. *)
Lemma delimited_cells_concat (rs : ResultSet) (d : string) (r : nat) :
  forall (rpost rpre : list string) (out : string),
    nth_error (data rs) r = Some (rpre ++ rpost)%list ->
    columns rs = List.length (rpre ++ rpost)%list ->
    for_loop (List.length rpost) (delimited_cell rs d r) (List.length rpre) out
    = Some (out ++ String.concat d rpost).
Proof.
  induction rpost as [|cell rpost IH]; intros rpre out Hrow Hcols;
    cbn [List.length for_loop String.concat].
  - now rewrite append_empty.
  - unfold delimited_cell at 1, cell_at; rewrite Hrow, nth_error_middle.
    specialize (IH (rpre ++ [cell])%list).
    rewrite <- app_assoc in IH; cbn [app] in IH.
    rewrite (length_app rpre [cell]) in IH; cbn [List.length] in IH.
    rewrite Nat.add_1_r in IH; rewrite IH by assumption.
    rewrite Hcols, length_app.
    destruct rpost as [|cell' rpost].
    + cbn [List.length String.concat].
      replace (List.length rpre + 1 <? List.length rpre + 1)%nat with false
        by (symmetry; apply Nat.ltb_ge; lia).
      now rewrite !append_empty.
    + replace (List.length rpre + 1 <? List.length rpre + List.length (cell :: cell' :: rpost))%nat
        with true by (symmetry; apply Nat.ltb_lt; cbn [List.length]; lia).
      now rewrite !append_assoc.
Qed.

(** The outer loop of [insert_delimited] over the rows. *)
Lemma delimited_rows_concat (rs : ResultSet) (d : string) :
  forall (dpost dpre : list RowType) (out : string),
    data rs = (dpre ++ dpost)%list ->
    Forall (fun row : RowType => List.length row = columns rs) dpost ->
    for_loop (List.length dpost)
      (fun r out =>
         match for_loop (columns rs) (delimited_cell rs d r) 0 out with
         | Some out => Some (out ++ endl)
         | None => None
         end)
      (List.length dpre) out
    = Some (out ++ String.concat "" (map (delimited_line d) dpost)).
Proof.
  assert (Hcat : forall a l, String.concat "" (a :: l) = a ++ String.concat "" l).
  { intros a [|b l]; cbn [String.concat]; [now rewrite append_empty | reflexivity]. }
  induction dpost as [|row dpost IH]; intros dpre out Hdata Hrows.
  - cbn; now rewrite append_empty.
  - inversion Hrows as [|? ? Hrow Hrows']; subst.
    cbn [List.length for_loop map]; rewrite Hcat.
    pose proof (delimited_cells_concat rs d (List.length dpre) row [] out) as Hin.
    cbn [app List.length] in Hin; rewrite Hrow in Hin.
    rewrite Hin; [|rewrite Hdata; apply nth_error_middle | reflexivity].
    specialize (IH (dpre ++ [row])%list).
    rewrite length_app in IH; cbn [List.length] in IH; rewrite Nat.add_1_r in IH.
    rewrite IH; [|now rewrite <- app_assoc | exact Hrows'].
    unfold delimited_line; now rewrite !append_assoc.
Qed.

Lemma insert_delimited_closed (rs : ResultSet) (out d : string)
    (do_show_headings : bool) :
  well_formed rs ->
  insert_delimited (Some rs) out d do_show_headings
  = Some (out
          ++ (if do_show_headings then delimited_line d (headers rs) else "")
          ++ String.concat "" (map (delimited_line d) (data rs))).
Proof.
  intros (Hr & Hc & Hrows).
  unfold insert_delimited; rewrite Hr.
  rewrite (delimited_rows_concat rs d (data rs) []) by trivial.
  destruct do_show_headings; [|reflexivity].
  pose proof (delimited_headings_concat d (headers rs) 0 out) as H.
  cbn [Nat.add] in H; rewrite <- Hc in H; rewrite H.
  unfold delimited_line; now rewrite !append_assoc.
Qed.

(** X16.  For a ResultSet as the constructor makes it, the delimited
    formatters (csv, null) write, after what the stream held, the line of
    the headings unless headings are hidden and then one line for each
    row, in order; a line is the cells with the delimiter between them,
    none after the last, and a newline.  For the null pointer that [exec]
    returns for no rows, nothing is written, no heading either. *)
Theorem insert_delimited_lines (rs : ResultSet) (out d : string)
    (do_show_headings : bool) :
  well_formed rs ->
  insert_delimited (Some rs) out d do_show_headings
  = Some (out
          ++ (if do_show_headings then delimited_line d (headers rs) else "")
          ++ String.concat "" (map (delimited_line d) (data rs)))
  /\ CsvFormatter_insert do_show_headings (Some rs) out
     = Some (out
             ++ (if do_show_headings then delimited_line "," (headers rs) else "")
             ++ String.concat "" (map (delimited_line ",") (data rs)))
  /\ insert_delimited None out d do_show_headings = Some out.
Proof.
  intros Hwf; split; [|split]; [| |reflexivity];
    now apply insert_delimited_closed.
Qed.

(** X17.  The delimited formatters do not quote or escape: a cell that
    holds the delimiter is written as it is, so a result of one column
    whose heading and cell hold the delimiter is written exactly as the
    result of two columns that it looks like. *)
Theorem delimited_output_is_ambiguous (h1 h2 x y d out : string)
    (do_show_headings : bool) :
  insert_delimited (Some (ResultSet_new [h1 ++ d ++ h2] [[x ++ d ++ y]])) out d
    do_show_headings
  = insert_delimited (Some (ResultSet_new [h1; h2] [[x; y]])) out d do_show_headings
  /\ ResultSet_new [h1 ++ d ++ h2] [[x ++ d ++ y]] <> ResultSet_new [h1; h2] [[x; y]]
  /\ well_formed (ResultSet_new [h1 ++ d ++ h2] [[x ++ d ++ y]])
  /\ well_formed (ResultSet_new [h1; h2] [[x; y]]).
Proof.
  assert (W1 : well_formed (ResultSet_new [h1 ++ d ++ h2] [[x ++ d ++ y]]))
    by (repeat split; repeat constructor).
  assert (W2 : well_formed (ResultSet_new [h1; h2] [[x; y]]))
    by (repeat split; repeat constructor).
  split; [|split; [discriminate | split; assumption]].
  rewrite (insert_delimited_closed _ out d do_show_headings W1).
  rewrite (insert_delimited_closed _ out d do_show_headings W2).
  cbn [ResultSet_new headers data map String.concat delimited_line].
  unfold delimited_line; cbn [String.concat].
  now rewrite !append_assoc.
Qed.

End Delimited.

Section Aligned.

Local Open Scope string_scope.

Lemma length_spaces (n : nat) : String.length (spaces n) = n.
Proof. induction n as [|n IH]; simpl; [reflexivity | now rewrite IH]. Qed.

Lemma length_setw_left (w : nat) (s : string) :
  (String.length s <= w)%nat -> String.length (setw_left w s) = w.
Proof.
  intros H; unfold setw_left; rewrite length_append, length_spaces; lia.
Qed.

(** The loop over the headers of [SpacedFormatter::insert]. *)
Lemma spaced_headings_line :
  forall (hs : list string) (wpost wpre : list nat) (out : string),
    List.length wpost = List.length hs ->
    spaced_headings hs (wpre ++ wpost)%list (List.length wpre) out
    = Some (out ++ spaced_line wpost hs).
Proof.
  induction hs as [|h hs IH]; intros wpost wpre out Hlen.
  - cbn; now rewrite append_empty.
  - destruct wpost as [|w wpost]; [discriminate|].
    cbn [List.length] in Hlen; injection Hlen as Hlen.
    cbn [spaced_headings].
    rewrite length_app; cbn [List.length].
    replace (List.length wpre + S (List.length wpost))%nat
      with (S (List.length wpre + List.length wpost)) by lia.
    cbn [before_last].
    destruct hs as [|h' hs].
    + destruct wpost; [|discriminate]; cbn [List.length].
      replace (List.length wpre <? List.length wpre + 0)%nat with false
        by (symmetry; apply Nat.ltb_ge; lia).
      reflexivity.
    + replace (List.length wpre <? List.length wpre + List.length wpost)%nat with true
        by (symmetry; apply Nat.ltb_lt; rewrite Hlen; cbn [List.length]; lia).
      rewrite nth_error_middle.
      specialize (IH wpost (wpre ++ [w])%list (out ++ setw_left w h) Hlen).
      rewrite <- app_assoc in IH; cbn [app] in IH.
      rewrite (length_app wpre [w]) in IH; cbn [List.length] in IH.
      rewrite Nat.add_1_r in IH; rewrite IH.
      cbn [spaced_line]; now rewrite append_assoc.
Qed.

(** The inner loop over the cells of row [r]. *)
Lemma spaced_cells_line (rs : ResultSet) (widths : list nat) (r : nat) :
  forall (rpost rpre : list string) (wpost wpre : list nat) (out : string),
    nth_error (data rs) r = Some (rpre ++ rpost)%list ->
    columns rs = List.length (rpre ++ rpost)%list ->
    widths = (wpre ++ wpost)%list ->
    List.length wpre = List.length rpre ->
    List.length wpost = List.length rpost ->
    for_loop (List.length rpost) (spaced_cell rs widths r) (List.length rpre) out
    = Some (out ++ spaced_line wpost rpost).
Proof.
  induction rpost as [|cell rpost IH]; intros rpre wpost wpre out Hrow Hcols Hw Hpre Hpost.
  - cbn; now rewrite append_empty.
  - destruct wpost as [|w wpost]; [discriminate|].
    cbn [List.length] in Hpost; injection Hpost as Hpost.
    cbn [List.length for_loop].
    unfold spaced_cell at 1, cell_at; rewrite Hrow, nth_error_middle.
    rewrite Hcols, length_app; cbn [List.length].
    replace (List.length rpre + S (List.length rpost))%nat
      with (S (List.length rpre + List.length rpost)) by lia.
    cbn [before_last].
    specialize (IH (rpre ++ [cell])%list wpost (wpre ++ [w])%list).
    rewrite <- !app_assoc in IH; cbn [app] in IH.
    rewrite (length_app rpre [cell]), (length_app wpre [w]) in IH;
      cbn [List.length] in IH.
    rewrite !Nat.add_1_r in IH.
    destruct rpost as [|cell' rpost].
    + destruct wpost; [|discriminate]; cbn [List.length].
      replace (List.length rpre <? List.length rpre + 0)%nat with false
        by (symmetry; apply Nat.ltb_ge; lia).
      cbn [for_loop spaced_line]; reflexivity.
    + replace (List.length rpre <? List.length rpre + List.length (cell' :: rpost))%nat
        with true by (symmetry; apply Nat.ltb_lt; cbn [List.length]; lia).
      rewrite Hw, <- Hpre, nth_error_middle, <- Hw, Hpre.
      rewrite IH; try assumption; try lia.
      cbn [spaced_line]; now rewrite append_assoc.
Qed.

(** The outer loop over the rows. *)
Lemma spaced_rows_lines (rs : ResultSet) (widths : list nat) :
  forall (dpost dpre : list RowType) (out : string),
    data rs = (dpre ++ dpost)%list ->
    List.length widths = columns rs ->
    Forall (fun row : RowType => List.length row = columns rs) dpost ->
    for_loop (List.length dpost)
      (fun r out =>
         match for_loop (columns rs) (spaced_cell rs widths r) 0 out with
         | Some out => Some (out ++ endl)
         | None => None
         end)
      (List.length dpre) out
    = Some (out ++ String.concat "" (map (fun row => spaced_line widths row ++ endl) dpost)).
Proof.
  assert (Hcat : forall a l, String.concat "" (a :: l) = a ++ String.concat "" l).
  { intros a [|b l]; cbn [String.concat]; [now rewrite append_empty | reflexivity]. }
  induction dpost as [|row dpost IH]; intros dpre out Hdata Hw Hrows.
  - cbn; now rewrite append_empty.
  - inversion Hrows as [|? ? Hrow Hrows']; subst.
    cbn [List.length for_loop map]; rewrite Hcat.
    pose proof (spaced_cells_line rs widths (List.length dpre) row [] widths [] out) as Hin.
    cbn [app List.length] in Hin; rewrite Hrow in Hin.
    rewrite Hin; try reflexivity; [|rewrite Hdata; apply nth_error_middle | lia].
    specialize (IH (dpre ++ [row])%list).
    rewrite length_app in IH; cbn [List.length] in IH; rewrite Nat.add_1_r in IH.
    rewrite IH; [|now rewrite <- app_assoc | exact Hw | exact Hrows'].
    now rewrite !append_assoc.
Qed.

(** Where a cell begins in its line, when the cells to its left fit their
    columns. *)
Lemma spaced_line_offset :
  forall (c : nat) (widths : list nat) (cells : list string) (cell : string),
    List.length widths = List.length cells ->
    nth_error cells c = Some cell ->
    (forall j cj wj,
        (j < c)%nat -> nth_error cells j = Some cj -> nth_error widths j = Some wj ->
        (String.length cj <= wj)%nat) ->
    exists pre post,
      spaced_line widths cells = pre ++ cell ++ post
      /\ String.length pre = column_offset widths c.
Proof.
  induction c as [|c IH]; intros widths cells cell Hlen Hcell Hfit.
  - destruct cells as [|c0 cells]; [discriminate|]; injection Hcell as ->.
    destruct widths as [|w widths]; [discriminate|].
    exists ""; destruct cells as [|c1 cells]; cbn [spaced_line append].
    + exists ""; now rewrite append_empty.
    + eexists; unfold setw_left; rewrite append_assoc; split; reflexivity.
  - destruct cells as [|c0 cells]; [discriminate|].
    destruct widths as [|w widths]; [discriminate|].
    cbn [nth_error] in Hcell; cbn [List.length] in Hlen; injection Hlen as Hlen.
    destruct (IH widths cells cell Hlen Hcell) as (pre & post & Hline & Hpre).
    { intros j cj wj Hj Hcj Hwj; apply (Hfit (S j) cj wj); [lia | exact Hcj | exact Hwj]. }
    destruct cells as [|c1 cells]; [destruct c; discriminate|].
    exists (setw_left w c0 ++ pre), post; split.
    + change (spaced_line (w :: widths) (c0 :: c1 :: cells))
        with (setw_left w c0 ++ spaced_line widths (c1 :: cells)).
      now rewrite Hline, append_assoc.
    + rewrite length_append, Hpre, length_setw_left.
      * reflexivity.
      * apply (Hfit 0%nat c0 w); [lia | reflexivity | reflexivity].
Qed.

Lemma SpacedFormatter_insert_closed (rs : ResultSet) (out : string)
    (do_show_headings : bool) (widths : list nat) :
  well_formed rs ->
  get_widths rs do_show_headings = Some widths ->
  List.length widths = columns rs ->
  SpacedFormatter_insert do_show_headings (Some rs) out
  = Some (out
          ++ (if do_show_headings then spaced_line widths (headers rs) ++ endl else "")
          ++ String.concat "" (map (fun row => spaced_line widths row ++ endl) (data rs))).
Proof.
  intros (Hr & Hc & Hrows) Hw Hlen.
  unfold SpacedFormatter_insert; rewrite Hw, Hr.
  destruct do_show_headings.
  - pose proof (spaced_headings_line (headers rs) widths [] out) as H.
    cbn [app List.length] in H; rewrite H by congruence.
    rewrite (spaced_rows_lines rs widths (data rs) []) by trivial.
    now rewrite !append_assoc.
  - now rewrite (spaced_rows_lines rs widths (data rs) []) by trivial.
Qed.

(** X18.  For a ResultSet as the constructor makes it, the aligned
    formatter writes the headings (unless hidden) and the rows, one line
    each, every cell but the last of a line padded with spaces to the
    width of its column.  So the columns line up: a heading begins at the
    sum of the widths of the columns to its left, and so does a cell when
    the cells to its left in its row are at most 76 characters long. *)
Theorem aligned_columns_line_up (rs : ResultSet) (out : string)
    (do_show_headings : bool) :
  well_formed rs ->
  exists widths,
    get_widths rs do_show_headings = Some widths
    /\ SpacedFormatter_insert do_show_headings (Some rs) out
       = Some (out
               ++ (if do_show_headings
                   then spaced_line widths (headers rs) ++ endl else "")
               ++ String.concat ""
                    (map (fun row => spaced_line widths row ++ endl) (data rs)))
    /\ (forall r row c cell,
           nth_error (data rs) r = Some row ->
           nth_error row c = Some cell ->
           (forall j cj, (j < c)%nat -> nth_error row j = Some cj ->
                         (String.length cj <= 76)%nat) ->
           exists pre post,
             spaced_line widths row = pre ++ cell ++ post
             /\ String.length pre = column_offset widths c)
    /\ (do_show_headings = true ->
        forall c h,
          nth_error (headers rs) c = Some h ->
          exists pre post,
            spaced_line widths (headers rs) = pre ++ h ++ post
            /\ String.length pre = column_offset widths c).
Proof.
  intros Hwf; pose proof Hwf as (Hr & Hc & Hrows).
  pose proof (get_widths_fold rs do_show_headings Hwf) as Hw.
  set (widths := fold_left widen_row (data rs)
                   (map (fun h => if do_show_headings
                                  then (XX + String.length h)%nat else XX)
                      (headers rs))) in *.
  assert (Hlen : List.length widths = columns rs).
  { assert (H : forall lines ws,
               List.length (fold_left widen_row lines ws) = List.length ws).
    { induction lines as [|row lines IH]; intros ws; cbn [fold_left]; [reflexivity|].
      now rewrite IH, length_widen_row. }
    unfold widths; now rewrite H, length_map. }
  assert (Hbound : forall c h,
             nth_error (headers rs) c = Some h ->
             exists w,
               nth_error widths c = Some w
               /\ ((if do_show_headings then (XX + String.length h)%nat else XX) <= w)%nat
               /\ (forall row cell,
                      In row (data rs) -> nth_error row c = Some cell ->
                      (Nat.min max_w (XX + String.length cell) <= w)%nat)).
  { intros c h Hh.
    destruct (fold_widen_row_bounds c (data rs)
                (map (fun h => if do_show_headings
                               then (XX + String.length h)%nat else XX) (headers rs))
                (if do_show_headings then (XX + String.length h)%nat else XX))
      as (w & Hnth & Hb & Hcells); [now rewrite nth_error_map, Hh|].
    exists w; repeat split; trivial; lia. }
  exists widths; split; [exact Hw|]; split;
    [now apply SpacedFormatter_insert_closed|]; split.
  - intros r row c cell Hrow Hcell Hshort.
    assert (Hin : In row (data rs)) by (eapply nth_error_In; eassumption).
    assert (Hrowlen : List.length row = columns rs)
      by (rewrite Forall_forall in Hrows; now apply Hrows).
    apply spaced_line_offset; [congruence | exact Hcell|].
    intros j cj wj Hj Hcj Hwj.
    destruct (nth_error (headers rs) j) as [h|] eqn:Hh.
    + destruct (Hbound j h Hh) as (w & Hnth & _ & Hcells).
      rewrite Hnth in Hwj; injection Hwj as <-.
      specialize (Hcells row cj Hin Hcj); specialize (Hshort j cj Hj Hcj).
      unfold max_w, XX in Hcells; lia.
    + apply nth_error_None in Hh.
      assert (j < List.length widths)%nat
        by (apply nth_error_Some; congruence).
      lia.
  - intros -> c h Hh.
    apply spaced_line_offset; [congruence | exact Hh|].
    intros j hj wj Hj Hhj Hwj.
    destruct (Hbound j hj Hhj) as (w & Hnth & Hask & _).
    rewrite Hnth in Hwj; injection Hwj as <-.
    unfold XX in Hask; lia.
Qed.

End Aligned.

(** ** The further theorems at sample inputs *)

Section MoreSamples.

Import Sample.
Local Open Scope string_scope.

Lemma exec_retry_budget_witness :
  let e := env_of [("ASH_CFG_DB_MAX_RETRIES", "1")] in
  let w := world [compiled ["id"]; compiled ["id"]; compiled ["id"]]
             [row ["1"]; answer SQLITE_BUSY; answer SQLITE_LOCKED;
              row ["2"]; answer SQLITE_DONE] in
  exists w',
    exec e "select 1" 0 false w
    = (Ret (Some (ResultSet_new ["id"] [["1"]; ["2"]])), w')
    /\ backoffs (trace w') = (backoffs (trace w) + 2 + 0)%nat
    /\ attempts (trace w') = (attempts (trace w) + 2 + 1 + 0)%nat.
Proof.
  intros e w.
  apply (proj1 (exec_retry_budget e eq_refl ltac:(vm_compute; discriminate) eq_refl
                  "select 1" 0 false w
                  [([row ["1"]], answer SQLITE_BUSY); ([], answer SQLITE_LOCKED)] []
                  ([], compiled ["id"])
                  [([], compiled ["id"]); ([], compiled ["id"])] [] (mk_stmt ["id"])
                  eq_refl
                  ltac:(repeat constructor; vm_compute; discriminate)
                  eq_refl
                  ltac:(repeat constructor; vm_compute; discriminate))
           [row ["2"]] []).
  - reflexivity.
  - repeat constructor.
  - vm_compute; discriminate.
  - vm_compute; discriminate.
Defined.

Lemma exec_unknown_code_witness :
  let e := env_of [] in
  let w := world [compiled ["id"]] [row ["1"]; answer 11] in
  exists w' msg report,
    exec e "select 1" 0 false w = (Stop Exited, w')
    /\ trace w' =
       (ELog FATAL msg :: ECerr report :: EFinalize :: EStep
        :: repeat EStep 1 ++ EPrepare "select 1" :: trace w)%list
    /\ prepares w' = [] /\ steps w' = [].
Proof.
  intros e w.
  apply (exec_unknown_code_is_fatal e eq_refl "select 1" 0 false w
           (compiled ["id"]) [] (mk_stmt ["id"]) [row ["1"]] (answer 11) []).
  - reflexivity.
  - reflexivity.
  - reflexivity.
  - repeat constructor.
  - reflexivity.
  - vm_compute; discriminate.
  - left; vm_compute; discriminate.
Defined.

Lemma exec_result_witness :
  let w := world [compiled ["id"; "command"]]
             [mk_step SQLITE_ROW [Some "1"; None]; mk_step SQLITE_DONE []] in
  fst (exec (env_of []) "select id, command from commands" 0 false w)
  = Ret (Some (ResultSet_new ["id"; "command"] [["1"; ""]])).
Proof.
  intros w.
  apply (exec_result_is_names_and_cell_texts (env_of [])
           "select id, command from commands" 0 false w
           (compiled ["id"; "command"]) [] (mk_stmt ["id"; "command"])
           [mk_step SQLITE_ROW [Some "1"; None]] [] []).
  - reflexivity.
  - reflexivity.
  - reflexivity.
  - reflexivity.
  - repeat constructor.
  - repeat constructor.
  - vm_compute; discriminate.
Defined.

Lemma open_with_all_tables_witness :
  let e := env_of [] in
  let w := world [compiled ["table_count"]] [row ["1"]; answer SQLITE_DONE] in
  Database_new e sessions "history.db" w
  = (Ret tt, snd (exec e (count_query sessions) 0 false (opened e "history.db" w))).
Proof.
  intros e w.
  apply (open_with_all_tables_runs_no_ddl e sessions "history.db" w _
           (Some (ResultSet_new ["table_count"] [["1"]]))).
  - left; reflexivity.
  - reflexivity.
  - vm_compute; reflexivity.
  - vm_compute; reflexivity.
Defined.

Lemma open_with_missing_tables_witness :
  let e := env_of [] in
  let w := world [compiled ["table_count"]] [row ["0"]; answer SQLITE_DONE] in
  let w1 := snd (exec e (count_query sessions) 0 false (opened e "history.db" w)) in
  exists w2,
    Database_new e sessions "history.db" w = (Ret tt, w2)
    /\ (sqlite3_exec_rc e = 0 ->
        trace w2 = EExec (get_create_tables sessions) :: trace w1)
    /\ (sqlite3_exec_rc e <> 0 ->
        exists msg,
          trace w2 = ECerr msg :: EExec (get_create_tables sessions) :: trace w1)
    /\ get_create_tables sessions =
       "PRAGMA foreign_keys=OFF;BEGIN TRANSACTION;"
       ++ String.concat "" (map (fun sql => sql ++ "; ") (create_tables sessions))
       ++ "COMMIT;".
Proof.
  intros e w w1.
  apply (open_with_missing_tables_bootstraps e sessions "history.db" w w1
           (Some (ResultSet_new ["table_count"] [["0"]])) 0).
  - left; reflexivity.
  - reflexivity.
  - vm_compute; reflexivity.
  - vm_compute; reflexivity.
  - reflexivity.
Defined.

Lemma open_failure_witness :
  let e := mk_env (fun _ => None) true true (fun n => Z.of_nat n) 1
             (fun _ => 0%N) true true false 0 in
  let w := world [compiled ["table_count"]] [row ["1"]; answer SQLITE_DONE] in
  exists w',
    Database_new e sessions "history.db" w = (Stop Exited, w')
    /\ prepares w' = prepares w /\ steps w' = steps w
    /\ filter is_sql (trace w') = filter is_sql (trace w)
    /\ exists msg rest, trace w' = ELog FATAL msg :: rest.
Proof.
  intros e w.
  apply (open_failure_is_fatal_before_any_sql e sessions "history.db" w).
  right; reflexivity.
Defined.

Lemma quote_is_injective_witness :
  quote "it's" = quote "it's" /\ "it's" = "it's".
Proof.
  split; [reflexivity|].
  apply (quote_is_injective_on_kept_characters "it's" "it's"); reflexivity.
Defined.

Lemma quote_of_dropped_characters_witness :
  quote (String (ascii_of_nat 7) "") = "''" /\ quote "" = "null".
Proof.
  apply (quote_of_dropped_characters_is_the_empty_literal (ascii_of_nat 7) "").
  reflexivity.
Defined.

Lemma config_key_witness :
  let e := env_of [("ASH_CFG_DB_MAX_RETRIES", "3")] in
  get_int e "ASH_CFG_DB_MAX_RETRIES" 5 = get_int e "DB_MAX_RETRIES" 5
  /\ get_string e "ASH_CFG_DB_MAX_RETRIES" "" = get_string e "DB_MAX_RETRIES" ""
  /\ has e "ASH_CFG_DB_MAX_RETRIES" = has e "DB_MAX_RETRIES"
  /\ sets e "ASH_CFG_DB_MAX_RETRIES" false = sets e "DB_MAX_RETRIES" false
  /\ get_ash_env e "DB_MAX_RETRIES" = getenv e "ASH_CFG_DB_MAX_RETRIES".
Proof.
  intros e.
  apply (config_key_with_or_without_prefix e "DB_MAX_RETRIES" 5 "" false).
  reflexivity.
Defined.

Lemma log_target_witness :
  get_target (env_of [("ASH_CFG_LOG_LEVEL", "debug"); ("ASH_CFG_LOG_FILE", "ash.log")])
    FATAL = "/dev/null".
Proof.
  apply (proj2 (proj2 (proj2 (log_target_by_level
                                (env_of [("ASH_CFG_LOG_LEVEL", "debug");
                                         ("ASH_CFG_LOG_FILE", "ash.log")]) FATAL)))
           "debug").
  - reflexivity.
  - reflexivity.
  - discriminate.
Defined.

Lemma ash_sleep_witness :
  let e := env_of [("ASH_CFG_DB_MAX_RETRIES", "1")] in
  let slept := mk_nap 0 (mk_timespec 0 0) in
  let clock := mk_clock true (mk_timespec 100 0) true (mk_timespec 100 30000000) in
  let w := world [] [] in
  exists w' later earlier,
    sleep_phase e 10 clock [slept; slept; slept] w = (Ret [slept], w')
    /\ trace w' = (later ++ ELog WARNING sleep_break_warning :: earlier ++ trace w)%list.
Proof.
  intros e slept clock w.
  destruct (ash_sleep_sleeps_twice_retries_times e eq_refl 10 clock
              [slept; slept; slept] w 30)
    as (w' & later & earlier & Hrun & Htrace & _).
  - reflexivity.
  - vm_compute; discriminate.
  - vm_compute; discriminate.
  - reflexivity.
  - exists w', later, earlier; split; [exact Hrun | exact Htrace].
Defined.

Lemma get_widths_witness :
  let rs := ResultSet_new ["id"; "command"] [["1"; "ls -l"]; ["2"; "make"]] in
  exists widths,
    get_widths rs true = Some widths
    /\ List.length widths = columns rs
    /\ (forall c h,
           nth_error (headers rs) c = Some h ->
           exists w,
             nth_error widths c = Some w
             /\ let asked := (XX + String.length h)%nat in
                (asked <= w <= Nat.max asked max_w)%nat
                /\ (forall r cell,
                       cell_at rs r c = Some cell ->
                       (Nat.min max_w (XX + String.length cell) <= w)%nat)).
Proof.
  intros rs.
  apply (get_widths_bounds rs true).
  repeat split; repeat constructor.
Defined.

Lemma insert_delimited_witness :
  let rs := ResultSet_new ["id"; "command"] [["1"; "ls -l"]; ["2"; "make"]] in
  CsvFormatter_insert true (Some rs) ""
  = Some ("id,command" ++ endl ++ "1,ls -l" ++ endl ++ "2,make" ++ endl).
Proof.
  intros rs.
  apply (proj1 (proj2 (insert_delimited_lines rs "" "," true
                         ltac:(repeat split; repeat constructor)))).
Defined.

Lemma aligned_columns_witness :
  let rs := ResultSet_new ["id"; "command"] [["1"; "ls -l"]; ["2"; "make"]] in
  exists widths,
    get_widths rs true = Some widths
    /\ SpacedFormatter_insert true (Some rs) ""
       = Some ("" ++ (spaced_line widths (headers rs) ++ endl)
               ++ String.concat ""
                    (map (fun row => spaced_line widths row ++ endl) (data rs))).
Proof.
  intros rs.
  destruct (aligned_columns_line_up rs "" true
              ltac:(repeat split; repeat constructor))
    as (widths & Hwidths & Hout & _).
  exists widths; split; [exact Hwidths | exact Hout].
Defined.

End MoreSamples.
